(** * hokuyo_node: the driver's life cycle and its acquisition thread

    A shallow embedding of [src/hokuyo_node/src/node/hokuyo_node.cpp]:
    the class [HokuyoDriver] ([doOpen], [doClose], [doStart], [doStop],
    [getID], [config_update], [scanThread]) and the diagnostics function
    [HokuyoNode::connectionStatus].

    The device library ([hokuyo::Laser]) is not part of the file; it is an
    interface here, and every result below holds for every implementation
    of it.  A device call either returns or throws a [hokuyo::Exception];
    [hokuyo::CorruptedDataException] is one of its subclasses.

    The member functions are state transformers that may throw.  The
    acquisition thread is a small-step machine over the same object, and
    a run interleaves its steps with the calls of the controlling thread;
    the object keeps a history of the device calls, the callbacks and the
    threads it has created, which the properties read. *)

From Stdlib Require Import ZArith String List Bool Lia DecimalString.
From stdpp Require Import base list.
Import ListNotations.

Local Open Scope string_scope.
Local Open Scope list_scope.
Local Open Scope Z_scope.

(** ** Values of the base class and of the device library *)

(** Modelled from the spec: the type [state_t] and the constants [CLOSED],
    [OPENED] and [RUNNING] are declared by the base class
    [driver_base::Driver], which is not in this repository.  The spec calls
    them the enumeration Closed, Opened, Running; the code compares them
    with [==] and [!=] only, so an integral type with three distinct values
    is all it relies on. *)
Definition state_t := Z.
Definition CLOSED : state_t := 0.
Definition OPENED : state_t := 1.
Definition RUNNING : state_t := 2.

(** The two classes of exception the code tells apart in its handlers. *)
Inductive exception_class := CorruptedDataException | OtherException.

(** A [hokuyo::Exception] with the text [what()] returns. *)
Record Exception := mkException { exn_class : exception_class; what : string }.

Definition is_corrupted (e : Exception) : bool :=
  match exn_class e with CorruptedDataException => true | OtherException => false end.

(** Outcome of a call that may throw. *)
Inductive result (A : Type) := Ok (a : A) | Throw (e : Exception).
Arguments Ok {A} a.
Arguments Throw {A} e.

Definition returned {A} (r : result A) : bool :=
  match r with Ok _ => true | Throw _ => false end.

(** [int] of the target: 32 bits, two's complement.  The counters are
    incremented with [++]; the wrap-around is written out. *)
Definition INT_MAX : Z := 2147483647.
Definition wrap_int (z : Z) : Z := (z + 2147483648) mod 4294967296 - 2147483648.
Definition int_incr (z : Z) : Z := wrap_int (z + 1).

(** Where the acquisition thread stands in [scanThread]. *)
Inductive thread_pc :=
| AtWhile         (* about to evaluate [state_ == RUNNING] *)
| InServiceScan   (* [laser_.serviceScan(scan_)] is in flight *)
| AfterLoop       (* left the loop, before [laser_.stopScanning()] *)
| Returned        (* [scanThread] has returned *)
| Aborted.        (* an exception left [scanThread] uncaught *)

Definition terminated (p : thread_pc) : bool :=
  match p with Returned | Aborted => true | _ => false end.

Section Driver.

(** [double] and the frame type [hokuyo::LaserScan] are only passed
    through; [Laser] is the state of the device object [laser_]. *)
Context {double LaserScan Laser : Type}.

(** The calls the driver makes on [laser_], with their arguments. *)
Inductive call :=
| c_open (port : string) (model_04LX : bool)
| c_close
| c_laserOn
| c_getID
| c_getStatus
| c_calcLatency (intensity : bool) (min_ang max_ang : double) (cluster skip : Z)
| c_requestScans (intensity : bool) (min_ang max_ang : double) (cluster skip : Z)
| c_serviceScan
| c_stopScanning.

(** What an observer of the driver sees: device calls with whether they
    returned, calls of the callback [useScan_], and thread creation. *)
Inductive event :=
| Called (c : call) (ok : bool)
| UseScan (scan : LaserScan)
| Spawned (tid : nat).

(** The interface of [hokuyo::Laser] as far as the driver uses it.
    [serviceScan] writes its frame through a reference, so it returns the
    new content of that variable whether or not it throws. *)
Class LaserDevice := {
  laser_open : string -> bool -> Laser -> result unit * Laser;
  laser_close : Laser -> result unit * Laser;
  laser_laserOn : Laser -> result unit * Laser;
  laser_getID : Laser -> result string * Laser;
  laser_getStatus : Laser -> result string * Laser;
  laser_calcLatency : bool -> double -> double -> Z -> Z -> Laser -> result unit * Laser;
  laser_requestScans : bool -> double -> double -> Z -> Z -> Laser -> result Z * Laser;
  laser_serviceScan : LaserScan -> Laser -> (result Z * LaserScan) * Laser;
  laser_stopScanning : Laser -> result unit * Laser
}.

Context {dev : LaserDevice}.

(** [hokuyo_node::HokuyoConfig], the fields the file reads. *)
Record Config := mkConfig {
  port : string;
  min_ang : double;
  max_ang : double;
  intensity : bool;
  cluster : Z;
  skip : Z;
  model_04LX : bool;
  frame_id : string;
  calibrate_time : bool
}.

(** ** The driver object

    The members of [HokuyoDriver] and the inherited [state_].  The handle
    [scan_thread_] names a thread of [threads], the threads created so far
    (a thread whose handle was dropped keeps running).  [trace] is the
    history of observable events, oldest first. *)
Record HokuyoDriver := mkDriver {
  state_ : state_t;
  scan_thread_ : option nat;
  device_status_ : string;
  device_id_ : string;
  connect_fail_ : string;
  scan_ : LaserScan;
  laser_ : Laser;
  calibrated_ : bool;
  lost_scan_thread_count_ : Z;
  corrupted_scan_count_ : Z;
  config_ : Config;
  threads : list thread_pc;
  trace : list event
}.

Definition set_state_ (v : state_t) (s : HokuyoDriver) : HokuyoDriver :=
  mkDriver v (scan_thread_ s) (device_status_ s) (device_id_ s) (connect_fail_ s)
    (scan_ s) (laser_ s) (calibrated_ s) (lost_scan_thread_count_ s)
    (corrupted_scan_count_ s) (config_ s) (threads s) (trace s).

Definition set_scan_thread_ (v : option nat) (s : HokuyoDriver) : HokuyoDriver :=
  mkDriver (state_ s) v (device_status_ s) (device_id_ s) (connect_fail_ s)
    (scan_ s) (laser_ s) (calibrated_ s) (lost_scan_thread_count_ s)
    (corrupted_scan_count_ s) (config_ s) (threads s) (trace s).

Definition set_device_status_ (v : string) (s : HokuyoDriver) : HokuyoDriver :=
  mkDriver (state_ s) (scan_thread_ s) v (device_id_ s) (connect_fail_ s)
    (scan_ s) (laser_ s) (calibrated_ s) (lost_scan_thread_count_ s)
    (corrupted_scan_count_ s) (config_ s) (threads s) (trace s).

Definition set_device_id_ (v : string) (s : HokuyoDriver) : HokuyoDriver :=
  mkDriver (state_ s) (scan_thread_ s) (device_status_ s) v (connect_fail_ s)
    (scan_ s) (laser_ s) (calibrated_ s) (lost_scan_thread_count_ s)
    (corrupted_scan_count_ s) (config_ s) (threads s) (trace s).

Definition set_connect_fail_ (v : string) (s : HokuyoDriver) : HokuyoDriver :=
  mkDriver (state_ s) (scan_thread_ s) (device_status_ s) (device_id_ s) v
    (scan_ s) (laser_ s) (calibrated_ s) (lost_scan_thread_count_ s)
    (corrupted_scan_count_ s) (config_ s) (threads s) (trace s).

Definition set_scan_ (v : LaserScan) (s : HokuyoDriver) : HokuyoDriver :=
  mkDriver (state_ s) (scan_thread_ s) (device_status_ s) (device_id_ s) (connect_fail_ s)
    v (laser_ s) (calibrated_ s) (lost_scan_thread_count_ s)
    (corrupted_scan_count_ s) (config_ s) (threads s) (trace s).

Definition set_laser_ (v : Laser) (s : HokuyoDriver) : HokuyoDriver :=
  mkDriver (state_ s) (scan_thread_ s) (device_status_ s) (device_id_ s) (connect_fail_ s)
    (scan_ s) v (calibrated_ s) (lost_scan_thread_count_ s)
    (corrupted_scan_count_ s) (config_ s) (threads s) (trace s).

Definition set_calibrated_ (v : bool) (s : HokuyoDriver) : HokuyoDriver :=
  mkDriver (state_ s) (scan_thread_ s) (device_status_ s) (device_id_ s) (connect_fail_ s)
    (scan_ s) (laser_ s) v (lost_scan_thread_count_ s)
    (corrupted_scan_count_ s) (config_ s) (threads s) (trace s).

Definition set_lost_scan_thread_count_ (v : Z) (s : HokuyoDriver) : HokuyoDriver :=
  mkDriver (state_ s) (scan_thread_ s) (device_status_ s) (device_id_ s) (connect_fail_ s)
    (scan_ s) (laser_ s) (calibrated_ s) v
    (corrupted_scan_count_ s) (config_ s) (threads s) (trace s).

Definition set_corrupted_scan_count_ (v : Z) (s : HokuyoDriver) : HokuyoDriver :=
  mkDriver (state_ s) (scan_thread_ s) (device_status_ s) (device_id_ s) (connect_fail_ s)
    (scan_ s) (laser_ s) (calibrated_ s) (lost_scan_thread_count_ s)
    v (config_ s) (threads s) (trace s).

Definition set_config_ (v : Config) (s : HokuyoDriver) : HokuyoDriver :=
  mkDriver (state_ s) (scan_thread_ s) (device_status_ s) (device_id_ s) (connect_fail_ s)
    (scan_ s) (laser_ s) (calibrated_ s) (lost_scan_thread_count_ s)
    (corrupted_scan_count_ s) v (threads s) (trace s).

Definition set_threads (v : list thread_pc) (s : HokuyoDriver) : HokuyoDriver :=
  mkDriver (state_ s) (scan_thread_ s) (device_status_ s) (device_id_ s) (connect_fail_ s)
    (scan_ s) (laser_ s) (calibrated_ s) (lost_scan_thread_count_ s)
    (corrupted_scan_count_ s) (config_ s) v (trace s).

Definition emit (e : event) (s : HokuyoDriver) : HokuyoDriver :=
  mkDriver (state_ s) (scan_thread_ s) (device_status_ s) (device_id_ s) (connect_fail_ s)
    (scan_ s) (laser_ s) (calibrated_ s) (lost_scan_thread_count_ s)
    (corrupted_scan_count_ s) (config_ s) (threads s) (trace s ++ [e]).

(** The constructor [HokuyoDriver()], with the members it leaves to their
    default constructors; the base class starts in [CLOSED]. *)
Definition HokuyoDriver_new (cfg : Config) (scan0 : LaserScan) (laser0 : Laser) : HokuyoDriver :=
  mkDriver CLOSED None "" "" "" scan0 laser0 false 0 0 cfg [] [].

(** ** Member functions as state transformers that may throw *)

Definition M (A : Type) : Type := HokuyoDriver -> result A * HokuyoDriver.

Definition ret {A} (a : A) : M A := fun s => (Ok a, s).

Definition bind {A B} (m : M A) (k : A -> M B) : M B :=
  fun s => match m s with
           | (Ok a, s1) => k a s1
           | (Throw e, s1) => (Throw e, s1)
           end.

(** [try { body } catch (hokuyo::Exception& e) { handler }] *)
Definition try_catch {A} (body : M A) (handler : Exception -> M A) : M A :=
  fun s => match body s with
           | (Ok a, s1) => (Ok a, s1)
           | (Throw e, s1) => handler e s1
           end.

Definition modify (f : HokuyoDriver -> HokuyoDriver) : M unit := fun s => (Ok tt, f s).

Definition when (b : bool) (m : M unit) : M unit := if b then m else ret tt.

(** A call on [laser_]: the device moves to its next state and the call
    is recorded. *)
Definition on_laser {A} (c : call) (f : Laser -> result A * Laser) : M A :=
  fun s => let (r, d) := f (laser_ s) in
           (r, emit (Called c (returned r)) (set_laser_ d s)).

Declare Scope drv_scope.
Delimit Scope drv_scope with drv.
Notation "x <- m ;; k" := (bind m (fun x => k))
  (at level 100, m at next level, right associativity) : drv_scope.
Notation "m ;;; k" := (bind m (fun _ => k))
  (at level 100, right associativity) : drv_scope.
Local Open Scope drv_scope.

(** [HokuyoDriver::getID] *)
Definition getID : M string :=
  id <- on_laser c_getID laser_getID ;;
  if String.eqb id "H0000000" then ret "unknown" else ret id.

(** [HokuyoDriver::doClose]: an exception of [laser_.close()] is caught
    and logged, and the state is assigned in both cases. *)
Definition doClose : M unit :=
  try_catch (on_laser c_close laser_close) (fun _ => ret tt) ;;;
  modify (set_state_ CLOSED).

(** The [try] block of [doOpen]. *)
Definition doOpen_body : M unit :=
  modify (set_device_id_ "unknown") ;;;
  modify (set_device_status_ "unknown") ;;;
  cfg <- (fun s => (Ok (config_ s), s)) ;;
  on_laser (c_open (port cfg) (model_04LX cfg)) (laser_open (port cfg) (model_04LX cfg)) ;;;
  id <- getID ;;
  modify (set_device_id_ id) ;;;
  st <- on_laser c_getStatus laser_getStatus ;;
  modify (set_device_status_ st) ;;;
  calibrated <- (fun s => (Ok (calibrated_ s), s)) ;;
  when (calibrate_time cfg && negb calibrated)
    (on_laser c_laserOn laser_laserOn ;;;
     on_laser
       (c_calcLatency (negb (model_04LX cfg) && intensity cfg)
          (min_ang cfg) (max_ang cfg) (cluster cfg) (skip cfg))
       (laser_calcLatency (negb (model_04LX cfg) && intensity cfg)
          (min_ang cfg) (max_ang cfg) (cluster cfg) (skip cfg)) ;;;
     modify (set_calibrated_ true)) ;;;
  modify (set_state_ OPENED).

(** [HokuyoDriver::doOpen] *)
Definition doOpen : M unit :=
  try_catch doOpen_body
    (fun e => modify (set_connect_fail_ (what e)) ;;; doClose).

(** [new boost::thread(...)] followed by [scan_thread_.reset]: the new
    thread starts at the head of [scanThread]; the thread the handle
    named before stays among [threads]. *)
Definition spawn_scanThread : M unit :=
  fun s => let tid := length (threads s) in
           (Ok tt, emit (Spawned tid)
                     (set_scan_thread_ (Some tid) (set_threads (threads s ++ [AtWhile]) s))).

(** The [try] block of [doStart]; its [return] ends the function with
    nothing left to run after the block. *)
Definition doStart_body : M unit :=
  on_laser c_laserOn laser_laserOn ;;;
  cfg <- (fun s => (Ok (config_ s), s)) ;;
  status <- on_laser
       (c_requestScans (negb (model_04LX cfg) && intensity cfg)
          (min_ang cfg) (max_ang cfg) (cluster cfg) (skip cfg))
       (laser_requestScans (negb (model_04LX cfg) && intensity cfg)
          (min_ang cfg) (max_ang cfg) (cluster cfg) (skip cfg)) ;;
  if negb (status =? 0)%Z then
    modify (fun s => set_corrupted_scan_count_ (int_incr (corrupted_scan_count_ s)) s)
  else
    modify (set_state_ RUNNING) ;;;
    spawn_scanThread.

(** [HokuyoDriver::doStart] *)
Definition doStart : M unit :=
  try_catch doStart_body
    (fun e => modify (set_connect_fail_ (what e)) ;;; doClose).

(** [HokuyoDriver::config_update] *)
Definition config_update (new_config : Config) : M unit :=
  modify (set_config_ new_config).

(** ** The acquisition thread

    [HokuyoDriver::scanThread], one step at a time, so that the calls of
    the controlling thread can fall between two steps.  The thread reads
    [state_] in the loop condition only, so its steps are cut there and
    at the two device calls: the step from [InServiceScan] is the return
    of [laser_.serviceScan(scan_)] with what follows it up to the next
    test of the loop condition, and [useScan_] is called in that step.
    [laser_.stopScanning()] is outside every [try]: an exception there
    leaves the thread function.  A call of the controlling thread counts
    as one step, except for the wait inside [doStop]. *)
Definition scanThread_step (p : thread_pc) (s : HokuyoDriver) : thread_pc * HokuyoDriver :=
  match p with
  | AtWhile =>
      if (state_ s =? RUNNING)%Z then (InServiceScan, s) else (AfterLoop, s)
  | InServiceScan =>
      let '(r, scan', d) := laser_serviceScan (scan_ s) (laser_ s) in
      let s1 := emit (Called c_serviceScan (returned r)) (set_scan_ scan' (set_laser_ d s)) in
      match r with
      | Ok status =>
          if negb (status =? 0)%Z then (AfterLoop, s1)       (* break *)
          else (AtWhile, emit (UseScan (scan_ s1)) s1)       (* useScan_(scan_) *)
      | Throw e =>
          if is_corrupted e then (AtWhile, s1)               (* continue *)
          else (Returned, snd (doClose s1))                  (* doClose(); return *)
      end
  | AfterLoop =>
      match on_laser c_stopScanning laser_stopScanning s with
      | (Ok _, s1) => (Returned, set_state_ OPENED s1)
      | (Throw _, s1) => (Aborted, s1)
      end
  | Returned => (Returned, s)
  | Aborted => (Aborted, s)
  end.

(** An exception that leaves a thread function ends the process
    ([std::terminate]); nothing runs after it. *)
Definition crashed (s : HokuyoDriver) : bool :=
  existsb (fun p => match p with Aborted => true | _ => false end) (threads s).

(** Thread [tid] takes its next step. *)
Definition tick (tid : nat) (s : HokuyoDriver) : HokuyoDriver :=
  if crashed s then s else
  match threads s !! tid with
  | Some p =>
      let (p', s') := scanThread_step p s in
      set_threads (<[tid := p']> (threads s')) s'
  | None => s
  end.

Definition thread_terminated (tid : nat) (s : HokuyoDriver) : bool :=
  match threads s !! tid with
  | Some p => terminated p
  | None => true
  end.

(** [boost::thread::timed_join]: the caller waits until thread [tid] has
    terminated or [ms] milliseconds have passed; it learns which, and the
    second component is how long it has waited.  What the threads do
    meanwhile is given by [sched]: each entry is a thread that takes a
    step and the time in milliseconds since the previous entry.  A step
    that would come after the deadline is not waited for. *)
Fixpoint timed_join (tid : nat) (ms : nat) (sched : list (nat * nat)) : M (bool * nat) :=
  fun s =>
    if thread_terminated tid s then (Ok (true, 0%nat), s)
    else match sched with
         | [] => (Ok (false, ms), s)
         | (t, dt) :: rest =>
             if (dt <=? ms)%nat then
               match timed_join tid (ms - dt) rest (tick t s) with
               | (Ok (joined, waited), s') => (Ok (joined, (dt + waited)%nat), s')
               | (Throw e, s') => (Throw e, s')
               end
             else (Ok (false, ms), s)
         end.

(** [HokuyoDriver::doStop]; [sched] is what the threads do while it
    waits.  If an exception has left a thread function by the end of the
    wait, the process has ended there and the rest does not run. *)
Definition doStop (sched : list (nat * nat)) : M unit :=
  st <- (fun s => (Ok (state_ s), s)) ;;
  if negb (st =? RUNNING)%Z then ret tt
  else
    modify (set_state_ OPENED) ;;;
    handle <- (fun s => (Ok (scan_thread_ s), s)) ;;
    timed_out <- match handle with
                 | Some tid => r <- timed_join tid 2000 sched ;; ret (negb (fst r))
                 | None => ret false
                 end ;;
    dead <- (fun s => (Ok (crashed s), s)) ;;
    if dead then ret tt
    else
      when timed_out
        (modify (fun s => set_lost_scan_thread_count_
                            (int_incr (lost_scan_thread_count_ s)) s)) ;;;
      modify (set_scan_thread_ None).

(** ** Runs of the whole object

    What can happen to a driver object: a call of one of the member
    functions by the controlling thread, or a step of a thread. *)
Inductive action :=
| a_open
| a_close
| a_start
| a_stop (sched : list (nat * nat))
| a_config (new_config : Config)
| a_tick (tid : nat).

Definition step (s : HokuyoDriver) (a : action) : HokuyoDriver :=
  if crashed s then s else
  match a with
  | a_open => snd (doOpen s)
  | a_close => snd (doClose s)
  | a_start => snd (doStart s)
  | a_stop sched => snd (doStop sched s)
  | a_config c => snd (config_update c s)
  | a_tick tid => tick tid s
  end.

Definition exec (s : HokuyoDriver) (acts : list action) : HokuyoDriver :=
  fold_left step acts s.

(** Steps of threads alone, in the given order. *)
Definition ticks (ts : list nat) (s : HokuyoDriver) : HokuyoDriver :=
  fold_left (fun s t => tick t s) ts s.

(** What the device answers when [doStart] switches the laser on and
    requests scans: the status of [requestScans], or the exception of the
    first call that throws. *)
Definition start_answer (s : HokuyoDriver) : result Z :=
  match laser_laserOn (laser_ s) with
  | (Ok _, d) =>
      let cfg := config_ s in
      fst (laser_requestScans (negb (model_04LX cfg) && intensity cfg)
             (min_ang cfg) (max_ang cfg) (cluster cfg) (skip cfg) d)
  | (Throw e, _) => Throw e
  end.

(** The device answers the coming calls of [serviceScan] with [rs], in
    this order, when the frame variable holds [scan] and the device is in
    state [d]: each answer is the status or exception together with the
    frame left in the variable. *)
Fixpoint serves (rs : list (result Z * LaserScan)) (scan : LaserScan) (d : Laser) : Prop :=
  match rs with
  | [] => True
  | r :: rest =>
      fst (laser_serviceScan scan d) = r /\
      serves rest (snd r) (snd (laser_serviceScan scan d))
  end.

(** A new object after [doOpen] and [doStart]. *)
Definition started (cfg : Config) (scan0 : LaserScan) (laser0 : Laser) : HokuyoDriver :=
  exec (HokuyoDriver_new cfg scan0 laser0) [a_open; a_start].

(** ** Reading the history *)

(** The frames the callback [useScan_] has received, in order. *)
Definition callbacks (tr : list event) : list LaserScan :=
  omap (fun e => match e with UseScan f => Some f | _ => None end) tr.

Definition count_events (f : event -> bool) (tr : list event) : nat :=
  length (List.filter f tr).

Definition is_calcLatency (e : event) : bool :=
  match e with Called (c_calcLatency _ _ _ _ _) _ => true | _ => false end.

Definition is_calcLatency_returned (e : event) : bool :=
  match e with Called (c_calcLatency _ _ _ _ _) true => true | _ => false end.

Definition is_close (e : event) : bool :=
  match e with Called c_close _ => true | _ => false end.

Definition is_stopScanning (e : event) : bool :=
  match e with Called c_stopScanning _ => true | _ => false end.

Definition is_spawn (e : event) : bool :=
  match e with Spawned _ => true | _ => false end.

(** ** Diagnostics: [HokuyoNode::connectionStatus] *)

(** [diagnostic_updater::DiagnosticStatusWrapper] as the function uses
    it: [summary] sets level and message, [add] appends a key and a
    value. *)
Inductive diag_value := v_string (s : string) | v_int (z : Z).

Record DiagnosticStatus := mkStatus {
  level : Z;
  message : string;
  values : list (string * diag_value)
}.

Definition summary (lvl : Z) (msg : string) (st : DiagnosticStatus) : DiagnosticStatus :=
  mkStatus lvl msg (values st).

Definition add (key : string) (v : diag_value) (st : DiagnosticStatus) : DiagnosticStatus :=
  mkStatus (level st) (message st) (values st ++ [(key, v)]).

(** [HokuyoNode]: its own member [connect_fail_] (declared at the top of
    the class) and the driver object [driver_] of the base class. *)
Record HokuyoNode := mkNode {
  node_connect_fail_ : string;
  driver_ : HokuyoDriver
}.

(** The constructor leaves [connect_fail_] empty, and no statement of the
    file assigns it. *)
Definition HokuyoNode_new (d : HokuyoDriver) : HokuyoNode := mkNode "" d.

(** Inside [HokuyoNode] the name [connect_fail_] is the node's member,
    not [driver_.connect_fail_]. *)
Definition connectionStatus (n : HokuyoNode) (status : DiagnosticStatus) : DiagnosticStatus :=
  let d := driver_ n in
  let status :=
    if (state_ d =? CLOSED)%Z then
      summary 2 ("Not connected. " ++ node_connect_fail_ n)%string status
    else if negb (String.eqb (device_status_ d) "Sensor works well.") then
      summary 2 "Sensor not operational" status
    else if (state_ d =? RUNNING)%Z then
      summary 0 "Sensor streaming." status
    else if (state_ d =? OPENED)%Z then
      summary 0 "Sensor open." status
    else
      summary 2 "Unknown sensor state." status in
  let status := add "Port" (v_string (port (config_ d))) status in
  let status := add "Device ID" (v_string (device_id_ d)) status in
  let status := add "Device Status" (v_string (device_status_ d)) status in
  let status := add "Scan Thread Lost Count" (v_int (lost_scan_thread_count_ d)) status in
  add "Corrupted Scan Count" (v_int (corrupted_scan_count_ d)) status.

End Driver.

Arguments count_events : simpl never.
Arguments callbacks : simpl never.

(** [contains sub s]: does [sub] occur in [s]? *)
Fixpoint contains (sub s : string) : bool :=
  if String.prefix sub s then true
  else match s with
       | EmptyString => false
       | String _ rest => contains sub rest
       end.

(** ** A device for running the model

    A device whose answers depend only on how many calls it has served:
    its state is that number.  Angles are integers and a frame is a
    number here. *)
Record script := mkScript {
  on_open : nat -> result unit;
  on_close : nat -> result unit;
  on_laserOn : nat -> result unit;
  on_getID : nat -> result string;
  on_getStatus : nat -> result string;
  on_calcLatency : nat -> result unit;
  on_requestScans : nat -> result Z;
  on_serviceScan : nat -> result Z * nat;
  on_stopScanning : nat -> result unit
}.

Definition scripted (sc : script) : @LaserDevice Z nat nat := {|
  laser_open := fun _ _ n => (on_open sc n, S n);
  laser_close := fun n => (on_close sc n, S n);
  laser_laserOn := fun n => (on_laserOn sc n, S n);
  laser_getID := fun n => (on_getID sc n, S n);
  laser_getStatus := fun n => (on_getStatus sc n, S n);
  laser_calcLatency := fun _ _ _ _ _ n => (on_calcLatency sc n, S n);
  laser_requestScans := fun _ _ _ _ _ n => (on_requestScans sc n, S n);
  laser_serviceScan := fun _ n => (on_serviceScan sc n, S n);
  laser_stopScanning := fun n => (on_stopScanning sc n, S n)
|}.

Definition fault (msg : string) : Exception := mkException OtherException msg.
Definition corrupted (msg : string) : Exception := mkException CorruptedDataException msg.

(** A healthy device: every call returns, frame [n] is the number of the
    call that produced it. *)
Definition healthy : script :=
  mkScript (fun _ => Ok tt) (fun _ => Ok tt) (fun _ => Ok tt)
    (fun _ => Ok "H1234567") (fun _ => Ok "Sensor works well.")
    (fun _ => Ok tt) (fun _ => Ok 0%Z) (fun n => (Ok 0%Z, n)) (fun _ => Ok tt).

(** The default configuration of the node, without and with calibration. *)
Definition cfg_plain : @Config Z :=
  mkConfig "/dev/ttyACM0" (-90)%Z 90%Z true 1 1 false "laser" false.
Definition cfg_calibrate : @Config Z :=
  mkConfig "/dev/ttyACM0" (-90)%Z 90%Z true 1 1 false "laser" true.

Definition fresh (cfg : @Config Z) : @HokuyoDriver Z nat nat :=
  HokuyoDriver_new cfg 0%nat 0%nat.

(** A device that rejects every scan request with status 1. *)
Definition rejecting : script :=
  mkScript (on_open healthy) (on_close healthy) (on_laserOn healthy)
    (on_getID healthy) (on_getStatus healthy) (on_calcLatency healthy)
    (fun _ => Ok 1%Z) (on_serviceScan healthy) (on_stopScanning healthy).

(** A device whose first [open] throws and whose later calls return. *)
Definition late_open : script :=
  mkScript (fun n => match n with O => Throw (fault "cannot open port") | _ => Ok tt end)
    (on_close healthy) (on_laserOn healthy)
    (on_getID healthy) (on_getStatus healthy) (on_calcLatency healthy)
    (on_requestScans healthy) (on_serviceScan healthy) (on_stopScanning healthy).

(** A device that reports the identity of an unprogrammed unit. *)
Definition unnamed : script :=
  mkScript (on_open healthy) (on_close healthy) (on_laserOn healthy)
    (fun _ => Ok "H0000000") (on_getStatus healthy) (on_calcLatency healthy)
    (on_requestScans healthy) (on_serviceScan healthy) (on_stopScanning healthy).

(** A device on which every [serviceScan] throws. *)
Definition failing_scan : script :=
  mkScript (on_open healthy) (on_close healthy) (on_laserOn healthy)
    (on_getID healthy) (on_getStatus healthy) (on_calcLatency healthy)
    (on_requestScans healthy) (fun _ => (Throw (fault "lost connection"), 0%nat))
    (on_stopScanning healthy).

(** A device that serves its calls number 5 and 6 as frames and throws on
    every later [serviceScan]. *)
Definition dying : script :=
  mkScript (on_open healthy) (on_close healthy) (on_laserOn healthy)
    (on_getID healthy) (on_getStatus healthy) (on_calcLatency healthy)
    (on_requestScans healthy)
    (fun n => if (n <? 7)%nat then (Ok 0%Z, n) else (Throw (fault "timeout"), n))
    (on_stopScanning healthy).

(** A device on which the latency calibration always throws. *)
Definition never_calibrates : script :=
  mkScript (on_open healthy) (on_close healthy) (on_laserOn healthy)
    (on_getID healthy) (on_getStatus healthy)
    (fun _ => Throw (fault "calibration failed"))
    (on_requestScans healthy) (on_serviceScan healthy) (on_stopScanning healthy).

(** A device that serves its calls number 5 to 14 as frames with status
    0 and throws at every later [serviceScan]. *)
Definition ten_frames : script :=
  mkScript (on_open healthy) (on_close healthy) (on_laserOn healthy)
    (on_getID healthy) (on_getStatus healthy) (on_calcLatency healthy)
    (on_requestScans healthy)
    (fun n => if (n <? 15)%nat then (Ok 0%Z, n) else (Throw (fault "device unplugged"), n))
    (on_stopScanning healthy).

(** A device whose call number 5 is a [serviceScan] with corrupted data;
    the other calls are those of the healthy device. *)
Definition glitch : script :=
  mkScript (on_open healthy) (on_close healthy) (on_laserOn healthy)
    (on_getID healthy) (on_getStatus healthy) (on_calcLatency healthy)
    (on_requestScans healthy)
    (fun n => if (n =? 5)%nat then (Throw (corrupted "bad checksum"), n) else (Ok 0%Z, n))
    (on_stopScanning healthy).


(** An empty status to fill in. *)
Definition blank_status : DiagnosticStatus := mkStatus 0 "" [].

(** ** More ways of reading the history *)

Section Observers.

Context {double LaserScan Laser : Type}.

Abbreviation Event := (@event double LaserScan).

Definition is_serviceScan (e : Event) : bool :=
  match e with Called c_serviceScan _ => true | _ => false end.

Definition is_requestScans_returned (e : Event) : bool :=
  match e with Called (c_requestScans _ _ _ _ _) true => true | _ => false end.

(** A calibration or a scan request that asks the device for intensities
    (the first argument of [calcLatency] and of [requestScans]). *)
Definition asks_intensity (e : Event) : bool :=
  match e with
  | Called (c_calcLatency true _ _ _ _) _ => true
  | Called (c_requestScans true _ _ _ _) _ => true
  | _ => false
  end.

(** The events [scanThread] can produce: its three device calls and the
    callback. *)
Definition is_thread_event (e : Event) : bool :=
  match e with
  | Called c_serviceScan _ => true
  | Called c_close _ => true
  | Called c_stopScanning _ => true
  | UseScan _ => true
  | _ => false
  end.

(** An action that does not take the driver off the model 04LX. *)
Definition keeps_04LX (a : @action double) : bool :=
  match a with
  | a_config c => model_04LX c
  | _ => true
  end.

(** [doClose], [doStop] and the steps of threads: the actions in which
    no code of [HokuyoDriver] reads [config_].  The callback a thread
    step runs belongs to the node: [publishScan] reads
    [config_.frame_id]; the history records the frame it is handed. *)
Definition close_stop_or_tick (a : @action double) : bool :=
  match a with
  | a_close | a_stop _ | a_tick _ => true
  | _ => false
  end.


(** The steps thread [tid] takes in a run. *)
Definition steps_of (tid : nat) (acts : list (@action double)) : nat :=
  length (List.filter (fun a => match a with
                           | a_tick t => Nat.eqb t tid
                           | _ => false
                           end) acts).

(** The threads that are inside [serviceScan]. *)
Definition in_flight (ths : list thread_pc) : nat :=
  length (List.filter (fun p => match p with InServiceScan => true | _ => false end) ths).

(** How far a thread is from its end once the loop condition fails: the
    number of steps it can still take. *)
Definition steps_left (p : thread_pc) : nat :=
  match p with
  | InServiceScan => 3
  | AtWhile => 2
  | AfterLoop => 1
  | Returned | Aborted => 0
  end.

End Observers.

(** ** The self tests of [HokuyoNode]

    [statusTest], [laserTest], [polledDataTest], [streamedDataTest],
    [streamedIntensityDataTest] and [laserOffTest] work on the device
    object [driver_.laser_] and on the status they are given.  Each of
    them assigns the status only after its last device call, so a test
    that throws has not touched the status: a test maps the status and
    the device to a new status or an exception, and the next device. *)

(** [operator<<] on an [int]: decimal digits, with a sign if negative. *)
Definition int_to_string (z : Z) : string :=
  DecimalString.NilZero.string_of_int (Z.to_int z).

Definition set_level (lvl : Z) (st : DiagnosticStatus) : DiagnosticStatus :=
  mkStatus lvl (message st) (values st).

Definition set_message (msg : string) (st : DiagnosticStatus) : DiagnosticStatus :=
  mkStatus (level st) msg (values st).

(** The text the three data tests build in their [ostringstream]. *)
Definition error_code_message (res : Z) : string :=
  ("Hokuyo error code: " ++ int_to_string res ++ ". Consult manual for meaning.")%string.

Section SelfTests.

Context {double LaserScan Laser : Type}.

(** The calls of [hokuyo::Laser] that only the tests make: [laserOff],
    [pollScan], and [requestScans] and [serviceScan] with their trailing
    arguments (a number of scans, a timeout) given. *)
Class LaserTestCalls := {
  laser_laserOff : Laser -> result unit * Laser;
  laser_pollScan :
    LaserScan -> double -> double -> Z -> Z -> Laser -> (result Z * LaserScan) * Laser;
  laser_requestScans_n :
    bool -> double -> double -> Z -> Z -> Z -> Z -> Laser -> result Z * Laser;
  laser_serviceScan_t : LaserScan -> Z -> Laser -> (result Z * LaserScan) * Laser
}.

Context {dev : @LaserDevice double LaserScan Laser}.
Context {tdev : LaserTestCalls}.

(** [hokuyo::LaserConfig], the two fields the tests read from
    [laser_config_]. *)
Record LaserConfig := mkLaserConfig {
  min_angle : double;
  max_angle : double
}.

Definition Test : Type := DiagnosticStatus -> Laser -> result DiagnosticStatus * Laser.

(** [HokuyoNode::statusTest] *)
Definition statusTest : Test :=
  fun status d =>
    match laser_getStatus d with
    | (Ok stat, d1) =>
        let status :=
          if negb (String.eqb stat "Sensor works well.") then set_level 2 status
          else set_level 0 status in
        (Ok (set_message stat status), d1)
    | (Throw e, d1) => (Throw e, d1)
    end.

(** [HokuyoNode::laserTest] *)
Definition laserTest : Test :=
  fun status d =>
    match laser_laserOn d with
    | (Ok _, d1) => (Ok (set_message "Laser turned on successfully." (set_level 0 status)), d1)
    | (Throw e, d1) => (Throw e, d1)
    end.

(** [HokuyoNode::polledDataTest]; [scan] is the local frame variable. *)
Definition polledDataTest (laser_config_ : LaserConfig) (scan : LaserScan) : Test :=
  fun status d =>
    match laser_pollScan scan (min_angle laser_config_) (max_angle laser_config_) 1 1000 d with
    | (Ok res, _, d1) =>
        if negb (res =? 0)%Z then
          (Ok (set_message (error_code_message res) (set_level 2 status)), d1)
        else
          (Ok (set_message "Polled Hokuyo for data successfully." (set_level 0 status)), d1)
    | (Throw e, _, d1) => (Throw e, d1)
    end.

(** The loop of [streamedDataTest]: [n] calls of [serviceScan(scan, 1000)]
    whose status is dropped; an exception ends the test. *)
Fixpoint service_scans (n : nat) (scan : LaserScan) (d : Laser) : result unit * Laser :=
  match n with
  | O => (Ok tt, d)
  | S n' =>
      match laser_serviceScan_t scan 1000 d with
      | (Ok _, scan', d1) => service_scans n' scan' d1
      | (Throw e, _, d1) => (Throw e, d1)
      end
  end.

(** [HokuyoNode::streamedDataTest] *)
Definition streamedDataTest (laser_config_ : LaserConfig) (scan : LaserScan) : Test :=
  fun status d =>
    match laser_requestScans_n false (min_angle laser_config_) (max_angle laser_config_)
            1 1 99 1000 d with
    | (Ok res, d1) =>
        if negb (res =? 0)%Z then
          (Ok (set_message (error_code_message res) (set_level 2 status)), d1)
        else
          match service_scans 99 scan d1 with
          | (Ok _, d2) =>
              (Ok (set_message "Streamed data from Hokuyo successfully."
                     (set_level 0 status)), d2)
          | (Throw e, d2) => (Throw e, d2)
          end
    | (Throw e, d1) => (Throw e, d1)
    end.

(** The loop of [streamedIntensityDataTest]: a [CorruptedDataException]
    is caught and counted in [corrupted_data], any other exception ends
    the test. *)
Fixpoint service_scans_counting (n : nat) (corrupted_data : Z) (scan : LaserScan)
    (d : Laser) : result Z * Laser :=
  match n with
  | O => (Ok corrupted_data, d)
  | S n' =>
      match laser_serviceScan_t scan 1000 d with
      | (Ok _, scan', d1) => service_scans_counting n' corrupted_data scan' d1
      | (Throw e, scan', d1) =>
          if is_corrupted e then service_scans_counting n' (int_incr corrupted_data) scan' d1
          else (Throw e, d1)
      end
  end.

(** [HokuyoNode::streamedIntensityDataTest]; the scan request is the one
    of [streamedDataTest], first argument [false] included. *)
Definition streamedIntensityDataTest (laser_config_ : LaserConfig) (scan : LaserScan) : Test :=
  fun status d =>
    match laser_requestScans_n false (min_angle laser_config_) (max_angle laser_config_)
            1 1 99 1000 d with
    | (Ok res, d1) =>
        if negb (res =? 0)%Z then
          (Ok (set_message (error_code_message res) (set_level 2 status)), d1)
        else
          match service_scans_counting 99 0 scan d1 with
          | (Ok corrupted_data, d2) =>
              if (corrupted_data =? 1)%Z then
                (Ok (set_message
                       "Single corrupted message.  This is acceptable and unavoidable"
                       (set_level 1 status)), d2)
              else if (corrupted_data >? 1)%Z then
                (Ok (set_message
                       (int_to_string corrupted_data ++ " corrupted messages.")%string
                       (set_level 2 status)), d2)
              else
                (Ok (set_message "Stramed data with intensity from Hokuyo successfully."
                       (set_level 0 status)), d2)
          | (Throw e, d2) => (Throw e, d2)
          end
    | (Throw e, d1) => (Throw e, d1)
    end.

(** [HokuyoNode::laserOffTest] *)
Definition laserOffTest : Test :=
  fun status d =>
    match laser_laserOff d with
    | (Ok _, d1) => (Ok (set_message "Laser turned off successfully." (set_level 0 status)), d1)
    | (Throw e, d1) => (Throw e, d1)
    end.

(** [HokuyoNode::addOpenedTests]: the tests in the order in which they
    are added, with their names. *)
Definition addOpenedTests (laser_config_ : LaserConfig) (scan : LaserScan)
    : list (string * Test) :=
  [ ("Status Test", statusTest);
    ("Laser Test", laserTest);
    ("Polled Data Test", polledDataTest laser_config_ scan);
    ("Streamed Data Test", streamedDataTest laser_config_ scan);
    ("Streamed Intensity Data Test", streamedIntensityDataTest laser_config_ scan);
    ("Laser Off Test", laserOffTest) ].

(** What the device answers to [n] successive calls of
    [serviceScan(scan, 1000)], were they all made. *)
Fixpoint scan_answers (n : nat) (scan : LaserScan) (d : Laser) : list (result Z) :=
  match n with
  | O => []
  | S n' =>
      let '(r, scan', d1) := laser_serviceScan_t scan 1000 d in
      r :: scan_answers n' scan' d1
  end.

(** An answer that [streamedIntensityDataTest] survives: a status or
    corrupted data. *)
Definition tolerated (r : result Z) : bool :=
  match r with
  | Ok _ => true
  | Throw e => is_corrupted e
  end.

Definition is_corrupted_answer (r : result Z) : bool :=
  match r with
  | Ok _ => false
  | Throw e => is_corrupted e
  end.

End SelfTests.

(** A device for the tests: the scripted device, with [laserOff] and
    [pollScan] that return, a scan request that returns [req], and a
    [serviceScan] with timeout whose answer to call number [n] is
    [answer n]. *)
Definition scripted_tests (req : Z) (answer : nat -> result Z) : @LaserTestCalls Z nat nat := {|
  laser_laserOff := fun n => (Ok tt, S n);
  laser_pollScan := fun _ _ _ _ _ n => (Ok 0%Z, n, S n);
  laser_requestScans_n := fun _ _ _ _ _ _ _ n => (Ok req, S n);
  laser_serviceScan_t := fun _ _ n => (answer n, n, S n)
|}.

(** A corrupted answer to the calls number 10 and 20, status 0 to the
    others. *)
Definition two_glitches (n : nat) : result Z :=
  if ((n =? 10) || (n =? 20))%nat then Throw (corrupted "bad checksum") else Ok 0%Z.

(** Status 7 to every call. *)
Definition all_status_7 (n : nat) : result Z := Ok 7%Z.

(** A corrupted answer to call number 4, status 0 to the others. *)
Definition glitch_at_4 (n : nat) : result Z :=
  if (n =? 4)%nat then Throw (corrupted "bad checksum") else Ok 0%Z.

(** The limits the device reports, as [postOpenHook] would store them. *)
Definition limits : @LaserConfig Z := mkLaserConfig (-135)%Z 135%Z.

(** The default configuration for a model 04LX. *)
Definition cfg_04LX : @Config Z :=
  mkConfig "/dev/ttyACM0" (-90)%Z 90%Z true 1 1 true "laser" true.

(** * Properties *)

(** Closed goals are settled by evaluation. *)
Ltac by_vm := vm_compute; repeat split; try reflexivity; try discriminate.

(** Discharge the first hypothesis of [H] by evaluation. *)
Ltac feed H :=
  match type of H with
  | ?A -> _ =>
      let Hc := fresh in
      assert (Hc : A) by by_vm; specialize (H Hc); clear Hc
  end.

(** The same for lists and orders, and with a tactic of one's choice. *)
Ltac by_forall := vm_compute; repeat constructor.

Ltac feed_with H tac :=
  match type of H with
  | ?A -> _ =>
      let Hc := fresh in
      assert (Hc : A) by tac; specialize (H Hc); clear Hc
  end.

Section DriverFacts.

Context {double LaserScan Laser : Type}.
Context {dev : @LaserDevice double LaserScan Laser}.

Abbreviation Driver := (@HokuyoDriver double LaserScan Laser).

(** Unfold the member functions down to the device calls, then split on
    what the device answers. *)
Ltac drv_unfold :=
  unfold doStart, doStart_body, doOpen, doOpen_body, doClose, getID,
    spawn_scanThread, config_update, try_catch, bind, ret, modify, when, on_laser in *.

Ltac drv_case :=
  match goal with
  | |- context [match ?x with _ => _ end] =>
      lazymatch x with
      | context [match _ with _ => _ end] => fail
      | _ => destruct x eqn:?
      end
  | |- context [if ?x then _ else _] =>
      lazymatch x with
      | context [if _ then _ else _] => fail
      | _ => destruct x eqn:?
      end
  end.

Ltac drv_cases := repeat (cbn -[Z.eqb String.eqb] in *; try drv_case).

(** ** Counting events *)

Lemma count_events_app (f : @event double LaserScan -> bool) tr1 tr2 :
  count_events f (tr1 ++ tr2) = (count_events f tr1 + count_events f tr2)%nat.
Proof. unfold count_events. now rewrite List.filter_app, length_app. Qed.

Lemma count_events_snoc (f : @event double LaserScan -> bool) tr e :
  count_events f (tr ++ [e]) = (count_events f tr + if f e then 1 else 0)%nat.
Proof. rewrite count_events_app. unfold count_events. cbn. now destruct (f e). Qed.

Lemma callbacks_app (tr1 tr2 : list (@event double LaserScan)) :
  callbacks (tr1 ++ tr2) = callbacks tr1 ++ callbacks tr2.
Proof. apply omap_app. Qed.

Lemma callbacks_snoc (tr : list (@event double LaserScan)) e :
  callbacks (tr ++ [e]) =
    callbacks tr ++ match e with UseScan f => [f] | _ => [] end.
Proof. rewrite callbacks_app. f_equal. now destruct e. Qed.

Ltac trace_simpl :=
  repeat rewrite ?count_events_snoc, ?callbacks_snoc;
  cbn -[Z.eqb String.eqb]; rewrite ?app_nil_r.

(** ** The close sequence *)

Lemma doClose_eq (s : Driver) :
  doClose s =
    (Ok tt, set_state_ CLOSED
              (emit (Called c_close (returned (fst (laser_close (laser_ s)))))
                 (set_laser_ (snd (laser_close (laser_ s))) s))).
Proof. drv_unfold. destruct (laser_close (laser_ s)) as [[[]|e] d]; reflexivity. Qed.

Lemma doClose_frame (s : Driver) :
  let s' := snd (doClose s) in
  state_ s' = CLOSED /\
  scan_thread_ s' = scan_thread_ s /\ threads s' = threads s /\
  calibrated_ s' = calibrated_ s /\ connect_fail_ s' = connect_fail_ s /\
  lost_scan_thread_count_ s' = lost_scan_thread_count_ s /\
  corrupted_scan_count_ s' = corrupted_scan_count_ s /\
  callbacks (trace s') = callbacks (trace s) /\
  count_events is_calcLatency (trace s') = count_events is_calcLatency (trace s) /\
  count_events is_calcLatency_returned (trace s') =
    count_events is_calcLatency_returned (trace s).
Proof.
  rewrite doClose_eq. cbn. trace_simpl. repeat split; lia.
Qed.

(** ** Opening *)

Lemma doOpen_state (s : Driver) :
  state_ (snd (doOpen s)) = if returned (fst (doOpen_body s)) then OPENED else CLOSED.
Proof. drv_unfold. drv_cases; reflexivity. Qed.

Lemma doOpen_frame (s : Driver) :
  let s' := snd (doOpen s) in
  scan_thread_ s' = scan_thread_ s /\ threads s' = threads s /\
  lost_scan_thread_count_ s' = lost_scan_thread_count_ s /\
  corrupted_scan_count_ s' = corrupted_scan_count_ s /\
  callbacks (trace s') = callbacks (trace s).
Proof. drv_unfold. drv_cases; trace_simpl; repeat split. Qed.

(** The failure text after [doOpen]: untouched when the [try] block
    completes, the text of the exception otherwise. *)
Lemma doOpen_connect_fail (s : Driver) :
  connect_fail_ (snd (doOpen s)) =
    match fst (doOpen_body s) with
    | Ok _ => connect_fail_ s
    | Throw e => what e
    end.
Proof. drv_unfold. drv_cases; reflexivity. Qed.

(** [doOpen] calls [calcLatency] only with the flag unset, sets the flag
    exactly when the call returns, and never unsets it. *)
Lemma doOpen_calibration (s : Driver) :
  let s' := snd (doOpen s) in
  (calibrated_ s = true ->
     calibrated_ s' = true /\
     count_events is_calcLatency (trace s') = count_events is_calcLatency (trace s)) /\
  (count_events is_calcLatency_returned (trace s') + (if calibrated_ s then 1 else 0) =
   count_events is_calcLatency_returned (trace s) + (if calibrated_ s' then 1 else 0))%nat.
Proof.
  drv_unfold. drv_cases; trace_simpl; split; intros; try split;
    try discriminate; try reflexivity; try lia.
Qed.

(** ** Starting *)

Lemma doStart_state (s : Driver) :
  state_ (snd (doStart s)) =
    match start_answer s with
    | Ok status => if (status =? 0)%Z then RUNNING else state_ s
    | Throw _ => CLOSED
    end.
Proof. unfold start_answer. drv_unfold. drv_cases; congruence. Qed.

Lemma doStart_frame (s : Driver) :
  let s' := snd (doStart s) in
  calibrated_ s' = calibrated_ s /\
  lost_scan_thread_count_ s' = lost_scan_thread_count_ s /\
  callbacks (trace s') = callbacks (trace s) /\
  count_events is_calcLatency (trace s') = count_events is_calcLatency (trace s) /\
  count_events is_calcLatency_returned (trace s') =
    count_events is_calcLatency_returned (trace s).
Proof. drv_unfold. drv_cases; trace_simpl; repeat split; lia. Qed.

Lemma doStart_connect_fail (s : Driver) :
  connect_fail_ (snd (doStart s)) =
    match fst (doStart_body s) with
    | Ok _ => connect_fail_ s
    | Throw e => what e
    end.
Proof. drv_unfold. drv_cases; reflexivity. Qed.

(** After [doStart] the state is [RUNNING] only with a thread behind the
    handle. *)
Lemma doStart_handle (s : Driver) :
  (state_ s = RUNNING -> is_Some (scan_thread_ s)) ->
  state_ (snd (doStart s)) = RUNNING -> is_Some (scan_thread_ (snd (doStart s))).
Proof. drv_unfold. drv_cases; intros H E; eauto; try discriminate E. Qed.

(** ** One step of a thread *)

(** What a thread step leaves alone. *)
Lemma scanThread_step_frame (p : thread_pc) (s : Driver) :
  let s' := snd (scanThread_step p s) in
  scan_thread_ s' = scan_thread_ s /\ threads s' = threads s /\
  calibrated_ s' = calibrated_ s /\ connect_fail_ s' = connect_fail_ s /\
  lost_scan_thread_count_ s' = lost_scan_thread_count_ s /\
  corrupted_scan_count_ s' = corrupted_scan_count_ s /\
  config_ s' = config_ s /\
  device_id_ s' = device_id_ s /\ device_status_ s' = device_status_ s.
Proof.
  destruct p; unfold scanThread_step; drv_unfold; drv_cases; repeat split; reflexivity.
Qed.

(** A thread step keeps the state, or assigns [OPENED] without closing
    the device, or runs the close sequence. *)
Lemma scanThread_step_state (p : thread_pc) (s : Driver) :
  let s' := snd (scanThread_step p s) in
  (state_ s' = state_ s /\
   count_events is_close (trace s') = count_events is_close (trace s)) \/
  (state_ s' = OPENED /\
   count_events is_close (trace s') = count_events is_close (trace s)) \/
  (state_ s' = CLOSED /\
   count_events is_close (trace s') = S (count_events is_close (trace s))).
Proof.
  destruct p; unfold scanThread_step; drv_unfold; drv_cases; trace_simpl;
    (left; split; [reflexivity | lia]) ||
    (right; left; split; [reflexivity | lia]) ||
    (right; right; split; [reflexivity | lia]).
Qed.

Lemma tick_unfold (tid : nat) (s : Driver) (p : thread_pc) :
  crashed s = false -> threads s !! tid = Some p ->
  tick tid s =
    set_threads (<[tid := fst (scanThread_step p s)]> (threads s))
      (snd (scanThread_step p s)).
Proof.
  intros Hc Hp. unfold tick. rewrite Hc, Hp.
  destruct (scanThread_step p s) as [p' s'] eqn:E. cbn.
  pose proof (scanThread_step_frame p s) as F. rewrite E in F. cbn in F.
  destruct F as (_ & -> & _). reflexivity.
Qed.

(** The thread step behind a tick, when there is one. *)
Lemma tick_cases (tid : nat) (s : Driver) :
  tick tid s = s \/
  exists p, crashed s = false /\ threads s !! tid = Some p /\
    tick tid s =
      set_threads (<[tid := fst (scanThread_step p s)]> (threads s))
        (snd (scanThread_step p s)).
Proof.
  destruct (crashed s) eqn:Hc; [left; unfold tick; now rewrite Hc|].
  destruct (threads s !! tid) as [p|] eqn:Hp.
  - right. exists p. auto using tick_unfold.
  - left. unfold tick. now rewrite Hc, Hp.
Qed.

Lemma scanThread_step_counts (p : thread_pc) (s : Driver) :
  let tr' := trace (snd (scanThread_step p s)) in
  count_events is_calcLatency tr' = count_events is_calcLatency (trace s) /\
  count_events is_calcLatency_returned tr' =
    count_events is_calcLatency_returned (trace s) /\
  count_events is_spawn tr' = count_events is_spawn (trace s).
Proof.
  destruct p; unfold scanThread_step; drv_unfold; drv_cases; trace_simpl;
    repeat split; lia.
Qed.

Ltac by_tick_cases tid s :=
  let p := fresh "p" in
  let E := fresh "E" in
  destruct (tick_cases tid s) as [E | (p & _ & _ & E)]; rewrite E; clear E;
  [ | cbn -[Z.eqb String.eqb] ].

(** What a tick leaves alone. *)
Lemma tick_frame (tid : nat) (s : Driver) :
  let s' := tick tid s in
  scan_thread_ s' = scan_thread_ s /\ length (threads s') = length (threads s) /\
  calibrated_ s' = calibrated_ s /\ connect_fail_ s' = connect_fail_ s /\
  lost_scan_thread_count_ s' = lost_scan_thread_count_ s /\
  corrupted_scan_count_ s' = corrupted_scan_count_ s /\
  config_ s' = config_ s /\
  device_id_ s' = device_id_ s /\ device_status_ s' = device_status_ s.
Proof.
  cbn zeta. by_tick_cases tid s; [tauto|].
  rewrite length_insert.
  pose proof (scanThread_step_frame p s) as F. cbn zeta in F. tauto.
Qed.

Lemma tick_state (tid : nat) (s : Driver) :
  let s' := tick tid s in
  (state_ s' = state_ s /\
   count_events is_close (trace s') = count_events is_close (trace s)) \/
  (state_ s' = OPENED /\
   count_events is_close (trace s') = count_events is_close (trace s)) \/
  (state_ s' = CLOSED /\
   count_events is_close (trace s') = S (count_events is_close (trace s))).
Proof.
  cbn zeta. by_tick_cases tid s; [tauto|]. apply scanThread_step_state.
Qed.

Lemma tick_counts (tid : nat) (s : Driver) :
  let tr' := trace (tick tid s) in
  count_events is_calcLatency tr' = count_events is_calcLatency (trace s) /\
  count_events is_calcLatency_returned tr' =
    count_events is_calcLatency_returned (trace s) /\
  count_events is_spawn tr' = count_events is_spawn (trace s).
Proof.
  cbn zeta. by_tick_cases tid s; [tauto|]. apply scanThread_step_counts.
Qed.

Lemma crashed_insert (l : list thread_pc) (tid : nat) (p : thread_pc) :
  existsb (fun p => match p with Aborted => true | _ => false end) l = false ->
  p <> Aborted ->
  existsb (fun p => match p with Aborted => true | _ => false end) (<[tid := p]> l) = false.
Proof.
  revert tid. induction l as [|q l IH]; intros tid Hl Hp; [reflexivity|].
  cbn in Hl. apply orb_false_iff in Hl as [Hq Hl].
  destruct tid as [|tid]; cbn.
  - rewrite Hl. destruct p; try reflexivity; contradiction.
  - rewrite Hq. cbn. now apply IH.
Qed.

Lemma tick_lookup (tid : nat) (s : Driver) (p : thread_pc) :
  crashed s = false -> threads s !! tid = Some p ->
  threads (tick tid s) !! tid = Some (fst (scanThread_step p s)).
Proof.
  intros Hc Hp. rewrite (tick_unfold tid s p Hc Hp). cbn.
  apply list_lookup_insert_eq. eapply lookup_lt_Some; eauto.
Qed.

(** The loop condition holds: the thread calls [serviceScan]. *)
Lemma tick_enter_loop (tid : nat) (s : Driver) :
  crashed s = false -> threads s !! tid = Some AtWhile -> state_ s = RUNNING ->
  tick tid s = set_threads (<[tid := InServiceScan]> (threads s)) s.
Proof.
  intros Hc Hp Hst. rewrite (tick_unfold tid s AtWhile Hc Hp).
  unfold scanThread_step. rewrite Hst. reflexivity.
Qed.

(** The loop condition fails: the thread leaves the loop. *)
Lemma tick_leave_loop (tid : nat) (s : Driver) :
  crashed s = false -> threads s !! tid = Some AtWhile -> state_ s <> RUNNING ->
  tick tid s = set_threads (<[tid := AfterLoop]> (threads s)) s.
Proof.
  intros Hc Hp Hst. rewrite (tick_unfold tid s AtWhile Hc Hp).
  unfold scanThread_step. destruct (Z.eqb_spec (state_ s) RUNNING); [contradiction|].
  reflexivity.
Qed.

(** [serviceScan] returns status 0: the frame goes to the callback. *)
Lemma tick_frame_delivered (tid : nat) (s : Driver) f d :
  crashed s = false -> threads s !! tid = Some InServiceScan ->
  laser_serviceScan (scan_ s) (laser_ s) = (Ok 0, f, d) ->
  tick tid s =
    set_threads (<[tid := AtWhile]> (threads s))
      (emit (UseScan f) (emit (Called c_serviceScan true) (set_scan_ f (set_laser_ d s)))).
Proof.
  intros Hc Hp Hd. rewrite (tick_unfold tid s InServiceScan Hc Hp).
  unfold scanThread_step. rewrite Hd. reflexivity.
Qed.

(** [serviceScan] returns another status: [break]. *)
Lemma tick_bad_status (tid : nat) (s : Driver) status f d :
  crashed s = false -> threads s !! tid = Some InServiceScan ->
  laser_serviceScan (scan_ s) (laser_ s) = (Ok status, f, d) -> status <> 0 ->
  tick tid s =
    set_threads (<[tid := AfterLoop]> (threads s))
      (emit (Called c_serviceScan true) (set_scan_ f (set_laser_ d s))).
Proof.
  intros Hc Hp Hd Hne. rewrite (tick_unfold tid s InServiceScan Hc Hp).
  unfold scanThread_step. rewrite Hd.
  destruct (Z.eqb_spec status 0); [contradiction | reflexivity].
Qed.

(** [serviceScan] throws [CorruptedDataException]: [continue]. *)
Lemma tick_corrupted (tid : nat) (s : Driver) e f d :
  crashed s = false -> threads s !! tid = Some InServiceScan ->
  laser_serviceScan (scan_ s) (laser_ s) = (Throw e, f, d) -> is_corrupted e = true ->
  tick tid s =
    set_threads (<[tid := AtWhile]> (threads s))
      (emit (Called c_serviceScan false) (set_scan_ f (set_laser_ d s))).
Proof.
  intros Hc Hp Hd He. rewrite (tick_unfold tid s InServiceScan Hc Hp).
  unfold scanThread_step. rewrite Hd, He. reflexivity.
Qed.

(** [serviceScan] throws another exception: [doClose(); return]. *)
Lemma tick_fatal (tid : nat) (s : Driver) e f d :
  crashed s = false -> threads s !! tid = Some InServiceScan ->
  laser_serviceScan (scan_ s) (laser_ s) = (Throw e, f, d) -> is_corrupted e = false ->
  tick tid s =
    set_threads (<[tid := Returned]> (threads s))
      (snd (doClose (emit (Called c_serviceScan false) (set_scan_ f (set_laser_ d s))))).
Proof.
  intros Hc Hp Hd He. rewrite (tick_unfold tid s InServiceScan Hc Hp).
  unfold scanThread_step. rewrite Hd, He. reflexivity.
Qed.

(** After the loop: [stopScanning], then the assignment if it returns. *)
Lemma tick_after_loop (tid : nat) (s : Driver) :
  crashed s = false -> threads s !! tid = Some AfterLoop ->
  tick tid s =
    match laser_stopScanning (laser_ s) with
    | (Ok _, d) =>
        set_threads (<[tid := Returned]> (threads s))
          (set_state_ OPENED (emit (Called c_stopScanning true) (set_laser_ d s)))
    | (Throw _, d) =>
        set_threads (<[tid := Aborted]> (threads s))
          (emit (Called c_stopScanning false) (set_laser_ d s))
    end.
Proof.
  intros Hc Hp. rewrite (tick_unfold tid s AfterLoop Hc Hp).
  unfold scanThread_step, on_laser.
  destruct (laser_stopScanning (laser_ s)) as [[u|e] d]; reflexivity.
Qed.

Lemma ticks_ind (P : Driver -> Prop) :
  (forall t s, P s -> P (tick t s)) ->
  forall ts s, P s -> P (ticks ts s).
Proof.
  intros Htick ts. unfold ticks.
  induction ts as [|t ts IH]; intros s Hs; cbn; auto.
Qed.

Lemma ticks_cons (t : nat) (ts : list nat) (s : Driver) :
  ticks (t :: ts) s = ticks ts (tick t s).
Proof. reflexivity. Qed.

Lemma ticks_frame (ts : list nat) (s : Driver) :
  let s' := ticks ts s in
  scan_thread_ s' = scan_thread_ s /\ length (threads s') = length (threads s) /\
  calibrated_ s' = calibrated_ s /\ connect_fail_ s' = connect_fail_ s /\
  lost_scan_thread_count_ s' = lost_scan_thread_count_ s /\
  corrupted_scan_count_ s' = corrupted_scan_count_ s /\
  config_ s' = config_ s /\
  device_id_ s' = device_id_ s /\ device_status_ s' = device_status_ s.
Proof.
  cbn zeta. apply ticks_ind; [|tauto].
  intros t s1 H. pose proof (tick_frame t s1) as F. cbn zeta in F.
  repeat split; etransitivity; (try apply F); apply H.
Qed.

Lemma ticks_counts (ts : list nat) (s : Driver) :
  let tr' := trace (ticks ts s) in
  count_events is_calcLatency tr' = count_events is_calcLatency (trace s) /\
  count_events is_calcLatency_returned tr' =
    count_events is_calcLatency_returned (trace s) /\
  count_events is_spawn tr' = count_events is_spawn (trace s).
Proof.
  cbn zeta. apply ticks_ind; [|tauto].
  intros t s1 H. pose proof (tick_counts t s1) as F. cbn zeta in F.
  repeat split; etransitivity; (try apply F); apply H.
Qed.

(** From [OPENED], steps of threads lead to [OPENED] or [CLOSED], and to
    [CLOSED] only through the close sequence. *)
Lemma ticks_from_opened (ts : list nat) (s : Driver) :
  state_ s = OPENED ->
  let s' := ticks ts s in
  (state_ s' = OPENED \/ state_ s' = CLOSED) /\
  (count_events is_close (trace s) <= count_events is_close (trace s'))%nat /\
  (count_events is_close (trace s') = count_events is_close (trace s) ->
   state_ s' = OPENED).
Proof.
  intros Hs. cbn zeta. apply ticks_ind; [|auto].
  intros t s1 (Hst & Hle & Hsame).
  destruct (tick_state t s1) as [[E C]|[[E C]|[E C]]]; rewrite E, C.
  - repeat split; auto.
  - repeat split; auto.
  - repeat split; auto; lia.
Qed.

(** One turn of the loop that delivers a frame: two steps of the thread,
    after which it is back at the loop condition. *)
Lemma loop_iteration (tid : nat) (s : Driver) f d :
  crashed s = false -> threads s !! tid = Some AtWhile -> state_ s = RUNNING ->
  laser_serviceScan (scan_ s) (laser_ s) = (Ok 0, f, d) ->
  let s' := ticks [tid; tid] s in
  crashed s' = false /\ threads s' = threads s /\ state_ s' = RUNNING /\
  scan_ s' = f /\ laser_ s' = d /\
  trace s' = trace s ++ [Called c_serviceScan true; UseScan f].
Proof.
  intros Hc Hp Hst Hd. cbn zeta. unfold ticks. cbn [fold_left].
  rewrite (tick_enter_loop tid s Hc Hp Hst).
  set (s1 := set_threads _ s).
  assert (Hlt : (tid < length (threads s))%nat) by (eapply lookup_lt_Some; eauto).
  assert (Hc1 : crashed s1 = false).
  { unfold crashed. cbn. apply crashed_insert; [exact Hc | discriminate]. }
  assert (Hp1 : threads s1 !! tid = Some InServiceScan).
  { cbn. now apply list_lookup_insert_eq. }
  rewrite (tick_frame_delivered tid s1 f d Hc1 Hp1 Hd). cbn.
  rewrite list_insert_insert_eq, (list_insert_id _ _ _ Hp), <- app_assoc.
  repeat split; auto.
Qed.

(** ** Waiting for a thread *)

(** [timed_join] returns; the threads have taken some steps meanwhile;
    the wait was no longer than the bound; the answer is whether the
    thread has terminated. *)
Lemma timed_join_ticks (tid ms : nat) (sched : list (nat * nat)) (s : Driver) :
  exists joined waited ts,
    timed_join tid ms sched s = (Ok (joined, waited), ticks ts s) /\
    (waited <= ms)%nat /\ (joined = false -> waited = ms) /\
    joined = thread_terminated tid (ticks ts s).
Proof.
  revert ms s. induction sched as [|[t dt] rest IH]; intros ms s; cbn.
  - destruct (thread_terminated tid s) eqn:Ht.
    + exists true, 0%nat, []. cbn. repeat split; auto; try lia; discriminate.
    + exists false, ms, []. cbn. repeat split; auto.
  - destruct (thread_terminated tid s) eqn:Ht.
    + exists true, 0%nat, []. cbn. repeat split; auto; try lia; discriminate.
    + destruct (Nat.leb_spec dt ms) as [Hle|Hgt].
      * destruct (IH (ms - dt)%nat (tick t s)) as (j & w & ts & E & Hw & Hout & Hj).
        rewrite E. exists j, (dt + w)%nat, (t :: ts).
        rewrite ticks_cons. repeat split; auto; try lia.
        intros Hf. specialize (Hout Hf). lia.
      * exists false, ms, []. cbn. repeat split; auto.
Qed.

(** [doStop] in a state other than [RUNNING]. *)
Lemma doStop_not_running (sched : list (nat * nat)) (s : Driver) :
  state_ s <> RUNNING -> doStop sched s = (Ok tt, s).
Proof.
  intros H. unfold doStop, bind, ret.
  destruct (Z.eqb_spec (state_ s) RUNNING); [contradiction | reflexivity].
Qed.

(** [doStop] in state [RUNNING] with a thread behind the handle. *)
Lemma doStop_running (sched : list (nat * nat)) (s : Driver) (tid : nat) :
  state_ s = RUNNING -> scan_thread_ s = Some tid ->
  exists joined waited ts,
    let sw := ticks ts (set_state_ OPENED s) in
    timed_join tid 2000 sched (set_state_ OPENED s) = (Ok (joined, waited), sw) /\
    (waited <= 2000)%nat /\ (joined = false -> waited = 2000%nat) /\
    joined = thread_terminated tid sw /\
    doStop sched s =
      (Ok tt,
       if crashed sw then sw
       else set_scan_thread_ None
              (if joined then sw
               else set_lost_scan_thread_count_
                      (int_incr (lost_scan_thread_count_ sw)) sw)).
Proof.
  intros Hst Hh.
  destruct (timed_join_ticks tid 2000 sched (set_state_ OPENED s))
    as (j & w & ts & E & Hw & Hout & Hj).
  exists j, w, ts. cbn zeta. repeat split; auto.
  unfold doStop, bind, ret, modify, when. rewrite Hst. cbn -[timed_join].
  rewrite Hh, E. cbn.
  destruct (crashed (ticks ts (set_state_ OPENED s))); [reflexivity|].
  destruct j; reflexivity.
Qed.

(** [doStop] in state [RUNNING] with an empty handle: nothing to wait
    for. *)
Lemma doStop_running_no_handle (sched : list (nat * nat)) (s : Driver) :
  state_ s = RUNNING -> scan_thread_ s = None ->
  doStop sched s =
    (Ok tt, if crashed s then set_state_ OPENED s
            else set_scan_thread_ None (set_state_ OPENED s)).
Proof.
  intros Hst Hh. unfold doStop, bind, ret, modify, when. rewrite Hst. cbn.
  rewrite Hh. cbn. unfold crashed. destruct (existsb _ (threads s)); reflexivity.
Qed.

(** Where [doStop] leaves the state when called in [RUNNING]. *)
Lemma doStop_from_running (sched : list (nat * nat)) (s : Driver) :
  state_ s = RUNNING ->
  let s' := snd (doStop sched s) in
  (state_ s' = OPENED \/ state_ s' = CLOSED) /\
  (count_events is_close (trace s') = count_events is_close (trace s) ->
   state_ s' = OPENED).
Proof.
  intros Hst. cbn zeta.
  destruct (scan_thread_ s) as [tid|] eqn:Hh.
  - destruct (doStop_running sched s tid Hst Hh) as (j & w & ts & _ & _ & _ & _ & ->).
    destruct (ticks_from_opened ts (set_state_ OPENED s) eq_refl) as (H1 & _ & H3).
    cbn [snd].
    destruct (crashed _); [auto|]. destruct j; cbn; auto.
  - rewrite (doStop_running_no_handle sched s Hst Hh). cbn [snd].
    destruct (crashed s); cbn; auto.
Qed.

(** What [doStop] leaves alone. *)
Lemma doStop_frame (sched : list (nat * nat)) (s : Driver) :
  let s' := snd (doStop sched s) in
  length (threads s') = length (threads s) /\
  calibrated_ s' = calibrated_ s /\ connect_fail_ s' = connect_fail_ s /\
  corrupted_scan_count_ s' = corrupted_scan_count_ s /\
  config_ s' = config_ s /\
  device_id_ s' = device_id_ s /\ device_status_ s' = device_status_ s /\
  (scan_thread_ s' = scan_thread_ s \/ scan_thread_ s' = None).
Proof.
  cbn zeta. destruct (Z.eq_dec (state_ s) RUNNING) as [Hr|Hr].
  - destruct (scan_thread_ s) as [tid|] eqn:Hh.
    + destruct (doStop_running sched s tid Hr Hh)
        as (j & w & ts & _ & _ & _ & _ & ->).
      pose proof (ticks_frame ts (set_state_ OPENED s)) as F. cbn zeta in F.
      destruct F as (F1 & F2 & F3 & F4 & F5 & F6 & F7 & F8 & F9).
      cbn [snd]. destruct (crashed _).
      * repeat split; auto. left. now rewrite F1.
      * destruct j; cbn; repeat split; auto.
    + rewrite (doStop_running_no_handle sched s Hr Hh). cbn [snd].
      destruct (crashed s); cbn; repeat split; auto.
  - rewrite (doStop_not_running sched s Hr). repeat split; auto.
Qed.

(** ** Counters *)

Lemma int_incr_in_range (z : Z) :
  - INT_MAX - 1 <= z < INT_MAX -> int_incr z = z + 1.
Proof.
  unfold int_incr, wrap_int, INT_MAX. intros H.
  rewrite Z.mod_small; lia.
Qed.

(** ** A rejected scan request *)

(** C4: when the device answers the scan request of [doStart] with a
    non-zero status, [corrupted_scan_count_] grows by exactly one (the
    counter being below [INT_MAX]), the state is the one [doStart] was
    called in, so [OPENED] stays [OPENED], and no thread is created: the
    handle and the threads are as before and no spawn is recorded. *)
Theorem doStart_rejected (s : Driver) (status : Z) :
  start_answer s = Ok status -> status <> 0 ->
  - INT_MAX - 1 <= corrupted_scan_count_ s < INT_MAX ->
  let s' := snd (doStart s) in
  corrupted_scan_count_ s' = corrupted_scan_count_ s + 1 /\
  state_ s' = state_ s /\
  (state_ s = OPENED -> state_ s' = OPENED) /\
  scan_thread_ s' = scan_thread_ s /\
  threads s' = threads s /\
  count_events is_spawn (trace s') = count_events is_spawn (trace s).
Proof.
  intros Hans Hne Hrange. cbn zeta.
  assert (Hst : state_ (snd (doStart s)) = state_ s).
  { rewrite doStart_state, Hans. destruct (Z.eqb_spec status 0); congruence. }
  split; [|split; [exact Hst|split; [congruence|]]].
  - rewrite <- (int_incr_in_range _ Hrange).
    revert Hans. unfold start_answer. drv_unfold. drv_cases; intros Hans;
      try discriminate Hans; try reflexivity.
    all: injection Hans as ->; destruct (Z.eqb_spec status 0);
      [contradiction | cbn in *; discriminate].
  - revert Hans. unfold start_answer. drv_unfold.
    drv_cases; intros Hans; try discriminate Hans; trace_simpl;
      try (repeat split; lia).
    all: injection Hans as ->; destruct (Z.eqb_spec status 0);
      [contradiction | cbn in *; discriminate].
Qed.

(** ** Stopping *)

(** C7, as the code has it.  Called in a state other than [RUNNING],
    [doStop] changes nothing.  Called in [RUNNING], it assigns [OPENED]
    and then waits for the thread with a bound of 2000 ms: the wait is a
    [timed_join] from the state with [OPENED] assigned, it lasts at most
    2000 ms, the full 2000 ms when it ends without the thread, and it
    reports whether the thread has terminated.  If no
    thread function was left by an exception meanwhile, [doStop] goes on:
    the handle is dropped, [corrupted_scan_count_] is untouched,
    [lost_scan_thread_count_] is incremented exactly when the thread has
    not terminated (by one, below [INT_MAX]), and the state is [OPENED]
    unless a thread ran the close sequence during the wait, in which case
    it is [CLOSED]. *)
Theorem doStop_contract (sched : list (nat * nat)) (s : Driver) :
  (state_ s <> RUNNING -> doStop sched s = (Ok tt, s)) /\
  (forall tid, state_ s = RUNNING -> scan_thread_ s = Some tid ->
   let s1 := set_state_ OPENED s in
   let wait := timed_join tid 2000 sched s1 in
   let s' := snd (doStop sched s) in
   exists joined waited,
     fst wait = Ok (joined, waited) /\
     (waited <= 2000)%nat /\ (joined = false -> waited = 2000%nat) /\
     joined = thread_terminated tid (snd wait) /\
     fst (doStop sched s) = Ok tt /\
     (crashed (snd wait) = false ->
        scan_thread_ s' = None /\
        corrupted_scan_count_ s' = corrupted_scan_count_ s /\
        lost_scan_thread_count_ s' =
          (if joined then lost_scan_thread_count_ s
           else int_incr (lost_scan_thread_count_ s)) /\
        (joined = false ->
         - INT_MAX - 1 <= lost_scan_thread_count_ s < INT_MAX ->
         lost_scan_thread_count_ s' = lost_scan_thread_count_ s + 1) /\
        (state_ s' = OPENED \/ state_ s' = CLOSED) /\
        (count_events is_close (trace s') = count_events is_close (trace s) ->
         state_ s' = OPENED))).
Proof.
  split; [apply doStop_not_running|].
  intros tid Hst Hh. cbn zeta.
  destruct (doStop_running sched s tid Hst Hh)
    as (j & w & ts & E & Hw & Hout & Hj & Hstop).
  rewrite E. cbn [fst snd].
  exists j, w.
  split; [reflexivity|]. split; [exact Hw|]. split; [exact Hout|]. split; [exact Hj|].
  split; [now rewrite Hstop|].
  intros Halive.
  pose proof (doStop_from_running sched s Hst) as Hfrom. cbn zeta in Hfrom.
  destruct Hfrom as (Hfin & Hsame).
  pose proof (ticks_frame ts (set_state_ OPENED s)) as F. cbn zeta in F.
  destruct F as (_ & _ & _ & _ & Hlost & Hcorr & _).
  assert (Hl : lost_scan_thread_count_ (snd (doStop sched s)) =
               if j then lost_scan_thread_count_ s
               else int_incr (lost_scan_thread_count_ s)).
  { rewrite Hstop. cbn [snd]. rewrite Halive. destruct j; cbn; now rewrite Hlost. }
  repeat split; auto.
  - rewrite Hstop. cbn [snd]. rewrite Halive. reflexivity.
  - rewrite Hstop. cbn [snd]. rewrite Halive. destruct j; cbn; now rewrite Hcorr.
  - intros -> Hrange. rewrite Hl. now apply int_incr_in_range.
Qed.

(** ** Runs *)

Lemma exec_ind (P : Driver -> Prop) (s0 : Driver) :
  P s0 -> (forall s a, P s -> P (step s a)) -> forall acts, P (exec s0 acts).
Proof.
  intros H0 Hstep acts. unfold exec. revert s0 H0.
  induction acts as [|a acts IH]; intros s0 H0; cbn; auto.
Qed.

Lemma step_valid_state (s : Driver) (a : action) :
  state_ s = CLOSED \/ state_ s = OPENED \/ state_ s = RUNNING ->
  state_ (step s a) = CLOSED \/ state_ (step s a) = OPENED \/
  state_ (step s a) = RUNNING.
Proof.
  intros Hv. unfold step. destruct (crashed s); [exact Hv|].
  destruct a as [| | |sched|c|tid].
  - rewrite doOpen_state. destruct (returned _); auto.
  - rewrite doClose_eq. cbn. auto.
  - rewrite doStart_state. destruct (start_answer s) as [status|e]; auto.
    destruct (status =? 0); auto.
  - destruct (Z.eq_dec (state_ s) RUNNING) as [Hr|Hr].
    + destruct (doStop_from_running sched s Hr) as ([H|H] & _); auto.
    + now rewrite (doStop_not_running sched s Hr).
  - exact Hv.
  - destruct (tick_state tid s) as [[E _]|[[E _]|[E _]]]; rewrite E; auto.
Qed.

Lemma step_running_has_thread (s : Driver) (a : action) :
  (state_ s = RUNNING -> is_Some (scan_thread_ s)) ->
  state_ (step s a) = RUNNING -> is_Some (scan_thread_ (step s a)).
Proof.
  intros Hinv. unfold step. destruct (crashed s); [exact Hinv|].
  destruct a as [| | |sched|c|tid].
  - rewrite doOpen_state. destruct (returned _); discriminate.
  - rewrite doClose_eq. cbn. discriminate.
  - now apply doStart_handle.
  - destruct (Z.eq_dec (state_ s) RUNNING) as [Hr|Hr].
    + destruct (doStop_from_running sched s Hr) as ([H|H] & _); rewrite H; discriminate.
    + now rewrite (doStop_not_running sched s Hr).
  - exact Hinv.
  - pose proof (tick_frame tid s) as F. cbn zeta in F. destruct F as (-> & _).
    destruct (tick_state tid s) as [[E _]|[[E _]|[E _]]]; rewrite E;
      auto; discriminate.
Qed.

(** In every reachable state a [RUNNING] driver has a thread behind its
    handle. *)
Lemma running_has_thread cfg scan0 laser0 (acts : list action) :
  let s := exec (HokuyoDriver_new cfg scan0 laser0) acts in
  state_ s = RUNNING -> is_Some (scan_thread_ s).
Proof.
  cbn zeta. apply exec_ind.
  - cbn. discriminate.
  - apply step_running_has_thread.
Qed.

(** C1, as the code has it.  In every state [s] that calls of the member
    functions and steps of threads can reach from a new object: the state
    is one of [CLOSED], [OPENED], [RUNNING]; [doOpen] ends in [OPENED]
    when its [try] block completes and in [CLOSED] when it throws;
    [doClose] ends in [CLOSED]; [doStart] ends in [RUNNING] when the scan
    request returns status 0, in the state it was called in ([OPENED]
    from [OPENED]) when the status is not 0, and in [CLOSED] when a
    device call throws; [doStop] changes nothing unless the state is
    [RUNNING], and from [RUNNING] it ends in [OPENED], or in [CLOSED] if
    a thread ran the close sequence while it waited. *)
Theorem state_machine_table cfg scan0 laser0 (acts : list action) :
  let s := exec (HokuyoDriver_new cfg scan0 laser0) acts in
  (state_ s = CLOSED \/ state_ s = OPENED \/ state_ s = RUNNING) /\
  state_ (snd (doOpen s)) =
    (if returned (fst (doOpen_body s)) then OPENED else CLOSED) /\
  state_ (snd (doClose s)) = CLOSED /\
  state_ (snd (doStart s)) =
    match start_answer s with
    | Ok status => if (status =? 0)%Z then RUNNING else state_ s
    | Throw _ => CLOSED
    end /\
  (forall sched, state_ s <> RUNNING -> snd (doStop sched s) = s) /\
  (forall sched, state_ s = RUNNING ->
     let s' := snd (doStop sched s) in
     (state_ s' = OPENED \/ state_ s' = CLOSED) /\
     (count_events is_close (trace s') = count_events is_close (trace s) ->
      state_ s' = OPENED)).
Proof.
  cbn zeta. split.
  - apply exec_ind; [cbn; auto | apply step_valid_state].
  - split; [apply doOpen_state|].
    split; [now rewrite doClose_eq|].
    split; [apply doStart_state|].
    split.
    + intros sched H. now rewrite doStop_not_running.
    + intros sched H. now apply doStop_from_running.
Qed.

(** ** Calibration *)

Lemma doStop_calibration (sched : list (nat * nat)) (s : Driver) :
  let s' := snd (doStop sched s) in
  calibrated_ s' = calibrated_ s /\
  count_events is_calcLatency (trace s') = count_events is_calcLatency (trace s) /\
  count_events is_calcLatency_returned (trace s') =
    count_events is_calcLatency_returned (trace s).
Proof.
  cbn zeta. destruct (Z.eq_dec (state_ s) RUNNING) as [Hr|Hr].
  - destruct (scan_thread_ s) as [tid|] eqn:Hh.
    + destruct (doStop_running sched s tid Hr Hh) as (j & w & ts & _ & _ & _ & _ & ->).
      pose proof (ticks_frame ts (set_state_ OPENED s)) as F.
      pose proof (ticks_counts ts (set_state_ OPENED s)) as C.
      cbn zeta in F, C. destruct F as (_ & _ & Hcal & _). destruct C as (C1 & C2 & _).
      cbn [snd]. destruct (crashed _); [auto|]. destruct j; cbn; auto.
    + rewrite (doStop_running_no_handle sched s Hr Hh). cbn [snd].
      destruct (crashed s); cbn; auto.
  - rewrite (doStop_not_running sched s Hr). auto.
Qed.

(** Each step keeps the number of completed calibrations equal to one
    when the flag is set and to zero when it is not. *)
Lemma step_calibration (s : Driver) (a : action) :
  count_events is_calcLatency_returned (trace s) =
    (if calibrated_ s then 1 else 0)%nat ->
  count_events is_calcLatency_returned (trace (step s a)) =
    (if calibrated_ (step s a) then 1 else 0)%nat.
Proof.
  intros Hinv. unfold step. destruct (crashed s); [exact Hinv|].
  destruct a as [| | |sched|c|tid].
  - destruct (doOpen_calibration s) as (_ & H).
    destruct (calibrated_ s), (calibrated_ (snd (doOpen s))); lia.
  - destruct (doClose_frame s) as (_ & _ & _ & -> & _ & _ & _ & _ & _ & ->). exact Hinv.
  - destruct (doStart_frame s) as (-> & _ & _ & _ & ->). exact Hinv.
  - destruct (doStop_calibration sched s) as (-> & _ & ->). exact Hinv.
  - exact Hinv.
  - pose proof (tick_frame tid s) as F. pose proof (tick_counts tid s) as C.
    cbn zeta in F, C. destruct F as (_ & _ & -> & _). destruct C as (_ & -> & _).
    exact Hinv.
Qed.

(** Once the flag is set, no step unsets it or calls [calcLatency]. *)
Lemma step_calibrated (s : Driver) (a : action) :
  calibrated_ s = true ->
  calibrated_ (step s a) = true /\
  count_events is_calcLatency (trace (step s a)) =
    count_events is_calcLatency (trace s).
Proof.
  intros Hcal. unfold step. destruct (crashed s); [auto|].
  destruct a as [| | |sched|c|tid].
  - now apply doOpen_calibration.
  - destruct (doClose_frame s) as (_ & _ & _ & -> & _ & _ & _ & _ & -> & _). auto.
  - destruct (doStart_frame s) as (-> & _ & _ & -> & _). auto.
  - destruct (doStop_calibration sched s) as (-> & -> & _). auto.
  - auto.
  - pose proof (tick_frame tid s) as F. pose proof (tick_counts tid s) as C.
    cbn zeta in F, C. destruct F as (_ & _ & -> & _). destruct C as (-> & _).
    auto.
Qed.

(** C5, as the code has it.  On an object built by the constructor, after
    any calls of the member functions and steps of threads: the number of
    calls of [calcLatency] that returned is one when [calibrated_] is set
    and zero otherwise, so at most one; once [calibrated_] is set no step
    unsets it or calls [calcLatency] again; [doClose] leaves
    [calibrated_] as it is.  (A call of [calcLatency] that throws does
    not set the flag, and says nothing about the calls that follow.) *)
Theorem calibration_completes_once cfg scan0 laser0 (acts : list action) :
  let s := exec (HokuyoDriver_new cfg scan0 laser0) acts in
  count_events is_calcLatency_returned (trace s) =
    (if calibrated_ s then 1 else 0)%nat /\
  (count_events is_calcLatency_returned (trace s) <= 1)%nat /\
  (forall a, calibrated_ s = true ->
     calibrated_ (step s a) = true /\
     count_events is_calcLatency (trace (step s a)) =
       count_events is_calcLatency (trace s)) /\
  calibrated_ (snd (doClose s)) = calibrated_ s.
Proof.
  cbn zeta.
  assert (H : count_events is_calcLatency_returned
                (trace (exec (HokuyoDriver_new cfg scan0 laser0) acts)) =
              (if calibrated_ (exec (HokuyoDriver_new cfg scan0 laser0) acts)
               then 1 else 0)%nat).
  { apply exec_ind; [reflexivity | apply step_calibration]. }
  split; [exact H|]. split.
  - rewrite H. destruct (calibrated_ _); lia.
  - split; [intros a; apply step_calibrated|].
    now rewrite doClose_eq.
Qed.

(** ** The end of the acquisition thread *)

(** C2, as the code has it.  For a thread [tid] of a live process, about
    its next step.  Leaving the loop because the state is no longer
    [RUNNING], or because [serviceScan] returned a non-zero status, leads
    to the statements after the loop and changes no state.  There the
    thread calls [stopScanning] and, when the call returns, returns with
    the state [OPENED] if the state was [RUNNING] or [OPENED] (nothing is
    said here of a driver closed meanwhile); when the call throws, the
    thread function is left with the state untouched.  When
    [serviceScan] throws an exception other than corrupted data, the
    thread runs the close sequence and returns at once: the state is
    [CLOSED] and [stopScanning] is not called.  A thread terminates in no
    other way. *)
Theorem scanThread_exit (tid : nat) (s : Driver) (p : thread_pc) :
  crashed s = false -> threads s !! tid = Some p ->
  let s' := tick tid s in
  let answer := fst (fst (laser_serviceScan (scan_ s) (laser_ s))) in
  (p = AtWhile -> state_ s <> RUNNING ->
     threads s' !! tid = Some AfterLoop /\ state_ s' = state_ s /\ trace s' = trace s) /\
  (p = InServiceScan -> forall status, answer = Ok status -> status <> 0 ->
     threads s' !! tid = Some AfterLoop /\ state_ s' = state_ s /\
     trace s' = trace s ++ [Called c_serviceScan true]) /\
  (p = AfterLoop ->
     exists ok, trace s' = trace s ++ [Called c_stopScanning ok] /\
       if ok then threads s' !! tid = Some Returned /\
                  (state_ s <> CLOSED -> state_ s' = OPENED)
       else threads s' !! tid = Some Aborted /\ state_ s' = state_ s) /\
  (p = InServiceScan -> forall e, answer = Throw e -> is_corrupted e = false ->
     threads s' !! tid = Some Returned /\ state_ s' = CLOSED /\
     (exists ok, trace s' = trace s ++ [Called c_serviceScan false; Called c_close ok]) /\
     count_events is_stopScanning (trace s') = count_events is_stopScanning (trace s)) /\
  (terminated p = false ->
     forall p', threads s' !! tid = Some p' -> terminated p' = true ->
     p = AfterLoop \/
     (p = InServiceScan /\ exists e, answer = Throw e /\ is_corrupted e = false)).
Proof.
  intros Hc Hp. cbn zeta.
  assert (Hlt : (tid < length (threads s))%nat) by (eapply lookup_lt_Some; eauto).
  split; [|split; [|split; [|split]]].
  - intros -> Hst. rewrite (tick_leave_loop tid s Hc Hp Hst). cbn.
    split; [now apply list_lookup_insert_eq | auto].
  - intros -> status Hans Hne.
    destruct (laser_serviceScan (scan_ s) (laser_ s)) as [[r f] d] eqn:Hd.
    cbn in Hans. subst r.
    rewrite (tick_bad_status tid s status f d Hc Hp Hd Hne). cbn.
    split; [now apply list_lookup_insert_eq | auto].
  - intros ->. rewrite (tick_after_loop tid s Hc Hp).
    destruct (laser_stopScanning (laser_ s)) as [[u|e] d].
    + exists true. cbn. split; [reflexivity|].
      split; [now apply list_lookup_insert_eq | reflexivity].
    + exists false. cbn. split; [reflexivity|].
      split; [now apply list_lookup_insert_eq | reflexivity].
  - intros -> e Hans He.
    destruct (laser_serviceScan (scan_ s) (laser_ s)) as [[r f] d] eqn:Hd.
    cbn in Hans. subst r.
    rewrite (tick_fatal tid s e f d Hc Hp Hd He), doClose_eq. cbn.
    split; [now apply list_lookup_insert_eq|]. split; [reflexivity|].
    split.
    + eexists. rewrite <- app_assoc. reflexivity.
    + trace_simpl. lia.
  - intros Hterm p' Hp' Hterm'.
    rewrite (tick_lookup tid s p Hc Hp) in Hp'. injection Hp' as <-.
    destruct p; try discriminate Hterm; auto.
    + unfold scanThread_step in Hterm'. destruct (state_ s =? RUNNING); discriminate.
    + right. split; [reflexivity|].
      unfold scanThread_step in Hterm'.
      destruct (laser_serviceScan (scan_ s) (laser_ s)) as [[[status|e] f] d]; cbn in *.
      * destruct (negb (status =? 0)); discriminate.
      * exists e. destruct (is_corrupted e); [discriminate | auto].
Qed.

(** ** A corrupted frame *)

(** C6: when the call of [serviceScan] in flight throws
    [CorruptedDataException], the step of the thread leaves the state and
    [corrupted_scan_count_] as they are, calls no callback, and takes the
    thread back to the loop condition; and if the state is still
    [RUNNING] and the next [serviceScan] returns a frame with status 0,
    the next two steps deliver that frame to the callback. *)
Theorem corrupted_frame_skipped (tid : nat) (s : Driver) e f d :
  crashed s = false -> threads s !! tid = Some InServiceScan ->
  laser_serviceScan (scan_ s) (laser_ s) = (Throw e, f, d) ->
  is_corrupted e = true ->
  let s' := tick tid s in
  state_ s' = state_ s /\
  corrupted_scan_count_ s' = corrupted_scan_count_ s /\
  lost_scan_thread_count_ s' = lost_scan_thread_count_ s /\
  callbacks (trace s') = callbacks (trace s) /\
  threads s' !! tid = Some AtWhile /\
  crashed s' = false /\
  (state_ s = RUNNING ->
   forall g d', laser_serviceScan (scan_ s') (laser_ s') = (Ok 0, g, d') ->
     callbacks (trace (ticks [tid; tid] s')) = callbacks (trace s) ++ [g] /\
     threads (ticks [tid; tid] s') !! tid = Some AtWhile /\
     state_ (ticks [tid; tid] s') = RUNNING).
Proof.
  intros Hc Hp Hd He. cbn zeta.
  assert (Hlt : (tid < length (threads s))%nat) by (eapply lookup_lt_Some; eauto).
  rewrite (tick_corrupted tid s e f d Hc Hp Hd He).
  set (s' := set_threads _ _).
  assert (Hc' : crashed s' = false).
  { unfold crashed. cbn. apply crashed_insert; [exact Hc | discriminate]. }
  assert (Hp' : threads s' !! tid = Some AtWhile).
  { cbn. now apply list_lookup_insert_eq. }
  split; [reflexivity|]. split; [reflexivity|]. split; [reflexivity|].
  split; [cbn; trace_simpl; reflexivity|].
  split; [exact Hp'|]. split; [exact Hc'|].
  intros Hst g d' Hd'.
  destruct (loop_iteration tid s' g d' Hc' Hp' Hst Hd')
    as (_ & Hth & Hst' & _ & _ & Htr).
  rewrite Hth, Hst', Htr. split; [|auto].
  rewrite callbacks_app. subst s'. cbn. trace_simpl. reflexivity.
Qed.

(** ** Frames in order, then a fatal fault *)

Lemma ticks_app (ts1 ts2 : list nat) (s : Driver) :
  ticks (ts1 ++ ts2) s = ticks ts2 (ticks ts1 s).
Proof. unfold ticks. apply fold_left_app. Qed.

Lemma flat_map_pairs {A} (t : nat) (l : list A) :
  flat_map (fun _ => [t; t]) l = repeat t (2 * length l).
Proof.
  induction l as [|x l IH]; [reflexivity|].
  cbn [flat_map length]. rewrite IH.
  replace (2 * S (length l))%nat with (S (S (2 * length l))) by lia.
  reflexivity.
Qed.

(** As long as the device serves frames with status 0 and nobody changes
    the state, the thread hands them to the callback one by one. *)
Lemma thread_delivers (tid : nat) (fs : list LaserScan) rest :
  forall s : Driver,
  crashed s = false -> threads s !! tid = Some AtWhile -> state_ s = RUNNING ->
  serves (map (fun f => (Ok 0, f)) fs ++ rest) (scan_ s) (laser_ s) ->
  let s' := ticks (flat_map (fun _ => [tid; tid]) fs) s in
  crashed s' = false /\ threads s' = threads s /\ state_ s' = RUNNING /\
  callbacks (trace s') = callbacks (trace s) ++ fs /\
  serves rest (scan_ s') (laser_ s').
Proof.
  induction fs as [|f fs IH]; intros s Hc Hp Hst Hsv; cbn zeta.
  - cbn. rewrite app_nil_r. auto.
  - cbn in Hsv. destruct Hsv as (Hans & Hsv).
    destruct (laser_serviceScan (scan_ s) (laser_ s)) as [[r g] d] eqn:Hd.
    cbn in Hans, Hsv. injection Hans as -> ->.
    destruct (loop_iteration tid s f d Hc Hp Hst Hd)
      as (Hc1 & Hth & Hst1 & Hscan & Hlas & Htr).
    change (flat_map (fun _ => [tid; tid]) (f :: fs))
      with ([tid; tid] ++ flat_map (fun _ : LaserScan => [tid; tid]) fs).
    rewrite ticks_app.
    destruct (IH (ticks [tid; tid] s)) as (Hc2 & Hth2 & Hst2 & Hcb2 & Hsv2).
    + exact Hc1.
    + now rewrite Hth.
    + exact Hst1.
    + now rewrite Hscan, Hlas.
    + split; [exact Hc2|]. split; [congruence|]. split; [exact Hst2|].
      split; [|exact Hsv2].
      rewrite Hcb2, Htr, callbacks_app. cbn. rewrite <- app_assoc. reflexivity.
Qed.

(** A driver all of whose threads have returned. *)
Lemma tick_idle (t : nat) (s : Driver) :
  Forall (fun p => p = Returned) (threads s) -> tick t s = s.
Proof.
  intros Hall. destruct (tick_cases t s) as [E | (p & _ & Hp & E)]; [exact E|].
  rewrite E. rewrite Forall_lookup in Hall. pose proof (Hall t p Hp) as ->.
  cbn. rewrite (list_insert_id _ _ _ Hp). now destruct s.
Qed.

Lemma ticks_idle (ts : list nat) (s : Driver) :
  Forall (fun p => p = Returned) (threads s) -> ticks ts s = s.
Proof.
  intros Hall. induction ts as [|t ts IH]; [reflexivity|].
  now rewrite ticks_cons, tick_idle.
Qed.

Lemma doStop_idle (sched : list (nat * nat)) (s : Driver) :
  Forall (fun p => p = Returned) (threads s) ->
  threads (snd (doStop sched s)) = threads s /\
  trace (snd (doStop sched s)) = trace s.
Proof.
  intros Hall. destruct (Z.eq_dec (state_ s) RUNNING) as [Hr|Hr].
  - destruct (scan_thread_ s) as [tid|] eqn:Hh.
    + destruct (doStop_running sched s tid Hr Hh) as (j & w & ts & _ & _ & _ & _ & ->).
      rewrite (ticks_idle ts (set_state_ OPENED s) Hall). cbn [snd].
      destruct (crashed _); [auto|]. destruct j; auto.
    + rewrite (doStop_running_no_handle sched s Hr Hh). cbn [snd].
      destruct (crashed s); auto.
  - rewrite (doStop_not_running sched s Hr). auto.
Qed.

(** With every thread returned, only [doStart] can bring a callback. *)
Lemma step_idle (s : Driver) (a : action) :
  Forall (fun p => p = Returned) (threads s) -> a <> a_start ->
  Forall (fun p => p = Returned) (threads (step s a)) /\
  callbacks (trace (step s a)) = callbacks (trace s).
Proof.
  intros Hall Ha. unfold step. destruct (crashed s); [auto|].
  destruct a as [| | |sched|c|tid].
  - destruct (doOpen_frame s) as (_ & -> & _ & _ & ->). auto.
  - destruct (doClose_frame s) as (_ & _ & -> & _ & _ & _ & _ & -> & _). auto.
  - contradiction.
  - destruct (doStop_idle sched s Hall) as (-> & ->). auto.
  - auto.
  - rewrite (tick_idle tid s Hall). auto.
Qed.

Lemma exec_idle (acts : list action) :
  forall s : Driver,
  Forall (fun p => p = Returned) (threads s) ->
  Forall (fun a => a <> a_start) acts ->
  callbacks (trace (exec s acts)) = callbacks (trace s).
Proof.
  induction acts as [|a acts IH]; intros s Hall Hacts; [reflexivity|].
  apply Forall_cons in Hacts as [Ha Hacts].
  destruct (step_idle s a Hall Ha) as (Hall' & Hcb).
  change (exec s (a :: acts)) with (exec (step s a) acts).
  now rewrite IH.
Qed.

(** A [doStart] that ends in [RUNNING] from another state has created a
    thread, which stands at the head of [scanThread]. *)
Lemma doStart_spawns (s : Driver) :
  state_ s <> RUNNING -> state_ (snd (doStart s)) = RUNNING ->
  threads (snd (doStart s)) = threads s ++ [AtWhile] /\
  scan_thread_ (snd (doStart s)) = Some (length (threads s)).
Proof.
  drv_unfold. drv_cases; intros Hne Hst; auto; try discriminate Hst; contradiction.
Qed.

(** What is known of a new object once [doOpen] has ended in [OPENED] and
    [doStart] in [RUNNING]: one thread, at the head of [scanThread], and
    no callback yet. *)
Lemma started_facts cfg scan0 laser0 :
  state_ (exec (HokuyoDriver_new cfg scan0 laser0) [a_open]) = OPENED ->
  state_ (started cfg scan0 laser0) = RUNNING ->
  threads (started cfg scan0 laser0) = [AtWhile] /\
  scan_thread_ (started cfg scan0 laser0) = Some 0%nat /\
  callbacks (trace (started cfg scan0 laser0)) = [] /\
  crashed (started cfg scan0 laser0) = false.
Proof.
  unfold started, exec. cbn [fold_left].
  set (s0 := HokuyoDriver_new cfg scan0 laser0).
  change (step s0 a_open) with (snd (doOpen s0)).
  destruct (doOpen_frame s0) as (_ & Hth1 & _ & _ & Hcb1).
  set (s1 := snd (doOpen s0)) in *.
  assert (Hs1 : step s1 a_start = snd (doStart s1)).
  { unfold step, crashed. now rewrite Hth1. }
  rewrite Hs1. intros Hopen Hrun.
  destruct (doStart_spawns s1) as (Hth2 & Hh2);
    [rewrite Hopen; discriminate | exact Hrun |].
  destruct (doStart_frame s1) as (_ & _ & Hcb2 & _).
  rewrite Hth1 in Hth2, Hh2. cbn in Hth2, Hh2.
  repeat split; auto.
  - now rewrite Hcb2, Hcb1.
  - unfold crashed. now rewrite Hth2.
Qed.

(** C3: on a new object, [doOpen] ends in [OPENED] and [doStart] in
    [RUNNING]; the device then serves the ten frames [fs] with status 0
    and throws an exception other than corrupted data at the eleventh
    request.  After the 22 steps the thread takes through this, the
    callback has received exactly [fs], in order (after [2 * k] steps,
    the first [k] of them), the state is [CLOSED], and the thread has
    returned; whatever is called afterwards, short of a new [doStart],
    and whatever steps are scheduled, the callback receives nothing
    more. *)
Theorem fatal_fault_after_ten_frames cfg scan0 laser0
    (fs : list LaserScan) (e : Exception) (g : LaserScan) :
  state_ (exec (HokuyoDriver_new cfg scan0 laser0) [a_open]) = OPENED ->
  state_ (started cfg scan0 laser0) = RUNNING ->
  length fs = 10%nat ->
  is_corrupted e = false ->
  serves (map (fun f => (Ok 0, f)) fs ++ [(Throw e, g)])
    (scan_ (started cfg scan0 laser0)) (laser_ (started cfg scan0 laser0)) ->
  let s3 := ticks (repeat 0%nat 22) (started cfg scan0 laser0) in
  callbacks (trace s3) = fs /\
  state_ s3 = CLOSED /\
  threads s3 = [Returned] /\
  (forall k, (k <= 10)%nat ->
     callbacks (trace (ticks (repeat 0%nat (2 * k)) (started cfg scan0 laser0))) =
       firstn k fs) /\
  (forall acts, Forall (fun a => a <> a_start) acts ->
     callbacks (trace (exec s3 acts)) = fs).
Proof.
  intros Hopen Hrun Hlen He Hsv. cbn zeta.
  destruct (started_facts cfg scan0 laser0 Hopen Hrun) as (Hth & _ & Hcb & Hc).
  remember (started cfg scan0 laser0) as s2 eqn:Es2. clear Es2 Hopen.
  assert (Hp : threads s2 !! 0%nat = Some AtWhile) by now rewrite Hth.
  destruct (thread_delivers 0 fs [(Throw e, g)] s2 Hc Hp Hrun Hsv)
    as (Hc' & Hth' & Hst' & Hcb' & Hsv').
  assert (Hfirst : forall k, (k <= 10)%nat ->
            callbacks (trace (ticks (repeat 0%nat (2 * k)) s2)) = firstn k fs).
  { intros k Hk.
    assert (Hsplit : map (fun f => (Ok 0, f)) fs ++ [(Throw e, g)] =
              map (fun f => (Ok 0, f)) (firstn k fs) ++
              (map (fun f : LaserScan => (Ok 0, f)) (skipn k fs) ++ [(Throw e, g)])).
    { rewrite app_assoc, <- map_app, firstn_skipn. reflexivity. }
    rewrite Hsplit in Hsv.
    destruct (thread_delivers 0 (firstn k fs) _ s2 Hc Hp Hrun Hsv)
      as (_ & _ & _ & Hcbk & _).
    rewrite flat_map_pairs, length_firstn, Hlen, Nat.min_l in Hcbk by exact Hk.
    now rewrite Hcbk, Hcb. }
  rewrite flat_map_pairs, Hlen in *.
  remember (ticks (repeat 0%nat (2 * 10)) s2) as sd eqn:Esd.
  assert (Hs3 : ticks (repeat 0%nat 22) s2 = ticks [0; 0]%nat sd).
  { rewrite Esd, <- ticks_app. reflexivity. }
  rewrite Hs3. clear Hs3.
  assert (Hpd : threads sd !! 0%nat = Some AtWhile) by now rewrite Hth', Hth.
  unfold ticks at 1 2 3 5. cbn [fold_left].
  rewrite (tick_enter_loop 0 sd Hc' Hpd Hst').
  set (s' := set_threads _ sd).
  assert (Hc1 : crashed s' = false).
  { unfold crashed, s'. cbn. now rewrite Hth', Hth. }
  assert (Hp1 : threads s' !! 0%nat = Some InServiceScan).
  { unfold s'. cbn. now rewrite Hth', Hth. }
  cbn in Hsv'. destruct Hsv' as (Hans & _).
  destruct (laser_serviceScan (scan_ sd) (laser_ sd)) as [[r g'] d] eqn:Hd.
  cbn in Hans. injection Hans as -> ->.
  rewrite (tick_fatal 0 s' e g d Hc1 Hp1 Hd He), doClose_eq.
  set (s3 := set_threads _ _).
  assert (Hcb3 : callbacks (trace s3) = fs).
  { unfold s3, s'. cbn. trace_simpl. now rewrite Hcb', Hcb. }
  assert (Hth3 : threads s3 = [Returned]).
  { unfold s3, s'. cbn. now rewrite Hth', Hth. }
  split; [exact Hcb3|]. split; [reflexivity|]. split; [exact Hth3|].
  split; [exact Hfirst|].
  intros acts Hacts.
  transitivity (callbacks (trace s3)); [|exact Hcb3].
  apply exec_idle; [|exact Hacts].
  rewrite Hth3. repeat constructor.
Qed.

(** ** The failure text *)

(** C8, as the code has it: [connect_fail_] is assigned in the handlers
    of [doOpen] and [doStart] and nowhere else.  A [doOpen] or [doStart]
    whose [try] block throws leaves the text of the exception there; a
    [doOpen] whose [try] block completes ends in [OPENED] and leaves
    [connect_fail_] as it was, and so does a [doStart] whose block
    completes; [doClose], [doStop], [config_update] and every step of a
    thread leave it as it was.  So over a run without [doOpen] and
    [doStart] the text stays: nothing clears it. *)
Theorem connect_fail_kept_by_successful_open (s : Driver) :
  (forall u, fst (doOpen_body s) = Ok u ->
     state_ (snd (doOpen s)) = OPENED /\
     connect_fail_ (snd (doOpen s)) = connect_fail_ s) /\
  (forall e, fst (doOpen_body s) = Throw e ->
     state_ (snd (doOpen s)) = CLOSED /\
     connect_fail_ (snd (doOpen s)) = what e) /\
  (forall e, fst (doStart_body s) = Throw e ->
     connect_fail_ (snd (doStart s)) = what e) /\
  (forall u, fst (doStart_body s) = Ok u ->
     connect_fail_ (snd (doStart s)) = connect_fail_ s) /\
  connect_fail_ (snd (doClose s)) = connect_fail_ s /\
  (forall sched, connect_fail_ (snd (doStop sched s)) = connect_fail_ s) /\
  (forall c, connect_fail_ (snd (config_update c s)) = connect_fail_ s) /\
  (forall tid, connect_fail_ (tick tid s) = connect_fail_ s) /\
  (forall acts, Forall (fun a => a <> a_open /\ a <> a_start) acts ->
     connect_fail_ (exec s acts) = connect_fail_ s).
Proof.
  assert (Hclose : forall s : Driver, connect_fail_ (snd (doClose s)) = connect_fail_ s).
  { intros s0. now rewrite doClose_eq. }
  assert (Hstop : forall sched (s : Driver),
             connect_fail_ (snd (doStop sched s)) = connect_fail_ s).
  { intros sched s0. pose proof (doStop_frame sched s0) as F. cbn zeta in F. tauto. }
  assert (Htick : forall tid (s : Driver), connect_fail_ (tick tid s) = connect_fail_ s).
  { intros tid s0. pose proof (tick_frame tid s0) as F. cbn zeta in F. tauto. }
  split; [|split; [|split; [|split]]];
    try (intros;
         rewrite ?doOpen_state, ?doOpen_connect_fail, ?doStart_connect_fail, H;
         auto; fail).
  split; [apply Hclose|]. split; [intros; apply Hstop|].
  split; [reflexivity|]. split; [intros; apply Htick|].
  intros acts Hacts. revert s.
  induction Hacts as [|a acts [Ho Hs] _ IH]; intros s; [reflexivity|].
  change (exec s (a :: acts)) with (exec (step s a) acts). rewrite IH.
  unfold step. destruct (crashed s); [reflexivity|].
  destruct a as [| | |sched|c|tid]; try contradiction; auto.
Qed.

(** ** Diagnostics *)

(** The summary [connectionStatus] writes, case by case in the order of
    its tests. *)
Lemma connectionStatus_summary (n : @HokuyoNode double LaserScan Laser)
    (st : DiagnosticStatus) :
  let d := driver_ n in
  let r := connectionStatus n st in
  (state_ d = CLOSED ->
     level r = 2 /\ message r = ("Not connected. " ++ node_connect_fail_ n)%string) /\
  (state_ d <> CLOSED -> device_status_ d <> "Sensor works well." ->
     level r = 2 /\ message r = "Sensor not operational") /\
  (state_ d <> CLOSED -> device_status_ d = "Sensor works well." ->
     (state_ d = RUNNING -> level r = 0 /\ message r = "Sensor streaming.") /\
     (state_ d = OPENED -> level r = 0 /\ message r = "Sensor open.") /\
     (state_ d <> RUNNING -> state_ d <> OPENED ->
        level r = 2 /\ message r = "Unknown sensor state.")).
Proof.
  cbn zeta. unfold connectionStatus.
  destruct (Z.eqb_spec (state_ (driver_ n)) CLOSED) as [Hc|Hc];
    destruct (String.eqb_spec (device_status_ (driver_ n)) "Sensor works well.") as [Hs|Hs];
    destruct (Z.eqb_spec (state_ (driver_ n)) RUNNING) as [Hr|Hr];
    destruct (Z.eqb_spec (state_ (driver_ n)) OPENED) as [Ho|Ho];
    cbn; repeat split; intros; try reflexivity; try contradiction;
    try (rewrite Hr in Ho; discriminate Ho).
Qed.

(** A node as its constructor leaves it reports a closed driver with the
    bare text, whatever failure the driver has recorded. *)
Lemma connectionStatus_closed (d : Driver) (st : DiagnosticStatus) :
  state_ d = CLOSED ->
  level (connectionStatus (HokuyoNode_new d) st) = 2 /\
  message (connectionStatus (HokuyoNode_new d) st) = "Not connected. ".
Proof.
  intros Hc. unfold connectionStatus, HokuyoNode_new. cbn. rewrite Hc. cbn. auto.
Qed.

(** ** getID *)

(** C10: whatever identity the device returns, [getID] returns "unknown"
    when that identity is "H0000000" and the identity itself otherwise. *)
Theorem getID_masks_default_identity (s : Driver) (id : string) (d : Laser) :
  laser_getID (laser_ s) = (Ok id, d) ->
  (id = "H0000000" -> fst (getID s) = Ok "unknown") /\
  (id <> "H0000000" -> fst (getID s) = Ok id).
Proof.
  intros Hid. unfold getID, bind, on_laser, ret. rewrite Hid.
  destruct (String.eqb_spec id "H0000000") as [-> | Hne]; cbn; split; congruence.
Qed.

(** * Further properties of the driver *)

(** ** Exceptions stay inside *)









(** ** A failed call releases the device *)

(** X2: when the [try] block of [doOpen] or of [doStart] throws, the
    function ends with a call of [laser_.close()], the only one it makes;
    when the block completes, also with a rejected scan request,
    [laser_.close()] is not called, and [doStart] does not call
    [stopScanning] either. *)
Theorem failed_call_closes_device (s : Driver) :
  (forall e, fst (doOpen_body s) = Throw e ->
     (exists ok, last (trace (snd (doOpen s))) = Some (Called c_close ok)) /\
     count_events is_close (trace (snd (doOpen s))) =
       S (count_events is_close (trace s))) /\
  (forall u, fst (doOpen_body s) = Ok u ->
     count_events is_close (trace (snd (doOpen s))) =
       count_events is_close (trace s)) /\
  (forall e, fst (doStart_body s) = Throw e ->
     (exists ok, last (trace (snd (doStart s))) = Some (Called c_close ok)) /\
     count_events is_close (trace (snd (doStart s))) =
       S (count_events is_close (trace s))) /\
  (forall u, fst (doStart_body s) = Ok u ->
     count_events is_close (trace (snd (doStart s))) =
       count_events is_close (trace s) /\
     count_events is_stopScanning (trace (snd (doStart s))) =
       count_events is_stopScanning (trace s)).
Proof.
  split; [|split; [|split]].
  - intros e. drv_unfold. drv_cases; intros H; try discriminate H;
      (split; [eexists; apply last_snoc | trace_simpl; lia]).
  - intros u. drv_unfold. drv_cases; intros H; try discriminate H; trace_simpl; lia.
  - intros e. drv_unfold. drv_cases; intros H; try discriminate H;
      (split; [eexists; apply last_snoc | trace_simpl; lia]).
  - intros u. drv_unfold. drv_cases; intros H; try discriminate H; trace_simpl;
      split; lia.
Qed.

(** ** What threads and [doStop] add to the history *)

Lemma scanThread_step_events (p : thread_pc) (s : Driver) :
  exists evs, trace (snd (scanThread_step p s)) = trace s ++ evs /\
              Forall (fun e => is_thread_event e = true) evs.
Proof.
  destruct p; unfold scanThread_step; drv_unfold; drv_cases;
    rewrite <- ?app_assoc; cbn;
    first [ eexists; split; [reflexivity | repeat constructor]
          | exists []; split; [now rewrite app_nil_r | constructor] ].
Qed.

Lemma tick_events (tid : nat) (s : Driver) :
  exists evs, trace (tick tid s) = trace s ++ evs /\
              Forall (fun e => is_thread_event e = true) evs.
Proof.
  by_tick_cases tid s.
  - exists []. split; [now rewrite app_nil_r | constructor].
  - apply scanThread_step_events.
Qed.

Lemma ticks_events (ts : list nat) (s : Driver) :
  exists evs, trace (ticks ts s) = trace s ++ evs /\
              Forall (fun e => is_thread_event e = true) evs.
Proof.
  apply ticks_ind.
  - intros t s1 (evs & E & F). destruct (tick_events t s1) as (evs' & E' & F').
    exists (evs ++ evs'). rewrite E', E, app_assoc. split; [reflexivity|].
    now apply Forall_app.
  - exists []. split; [now rewrite app_nil_r | constructor].
Qed.

Lemma doStop_events (sched : list (nat * nat)) (s : Driver) :
  exists evs, trace (snd (doStop sched s)) = trace s ++ evs /\
              Forall (fun e => is_thread_event e = true) evs.
Proof.
  destruct (Z.eq_dec (state_ s) RUNNING) as [Hr|Hr].
  - destruct (scan_thread_ s) as [tid|] eqn:Hh.
    + destruct (doStop_running sched s tid Hr Hh)
        as (j & w & ts & _ & _ & _ & _ & ->).
      destruct (ticks_events ts (set_state_ OPENED s)) as (evs & E & F).
      exists evs. split; [|exact F]. cbn [snd].
      destruct (crashed _); [exact E|]. destruct j; exact E.
    + rewrite (doStop_running_no_handle sched s Hr Hh). exists []. cbn [snd].
      split; [|constructor]. destruct (crashed s); cbn; now rewrite app_nil_r.
  - rewrite (doStop_not_running sched s Hr). exists [].
    split; [now rewrite app_nil_r | constructor].
Qed.

(** Events of threads do not count for a test that is false on them. *)
Lemma count_events_thread (f : @event double LaserScan -> bool) tr evs :
  (forall e, is_thread_event e = true -> f e = false) ->
  Forall (fun e => is_thread_event e = true) evs ->
  count_events f (tr ++ evs) = count_events f tr.
Proof.
  intros Hf Hevs. rewrite count_events_app.
  assert (H0 : count_events f evs = 0%nat); [|lia].
  induction Hevs as [|e evs He _ IH]; [reflexivity|].
  change (e :: evs) with ([e] ++ evs). rewrite count_events_app, IH.
  unfold count_events. cbn. now rewrite (Hf e He).
Qed.

(** What [doStart] and [doClose] leave alone, beyond the fields listed
    before. *)
Lemma doStart_keeps (s : Driver) :
  let s' := snd (doStart s) in
  config_ s' = config_ s /\
  device_id_ s' = device_id_ s /\ device_status_ s' = device_status_ s.
Proof. drv_unfold. drv_cases; repeat split. Qed.

Lemma doClose_keeps (s : Driver) :
  let s' := snd (doClose s) in
  config_ s' = config_ s /\
  device_id_ s' = device_id_ s /\ device_status_ s' = device_status_ s.
Proof. rewrite doClose_eq. repeat split. Qed.

(** X8: [doStop] makes no device call of its own.  Every event it adds
    to the history is an event of a thread, and when no thread takes a
    step within the bound, the history and the device are as before: the
    laser has not been switched off. *)
Theorem doStop_calls_no_device (s : Driver) :
  (forall sched, exists evs,
     trace (snd (doStop sched s)) = trace s ++ evs /\
     Forall (fun e => is_thread_event e = true) evs) /\
  trace (snd (doStop [] s)) = trace s /\
  laser_ (snd (doStop [] s)) = laser_ s /\
  threads (snd (doStop [] s)) = threads s.
Proof.
  split; [intros sched; apply doStop_events|].
  unfold doStop, bind, ret, modify, when. cbn -[crashed].
  destruct (negb (state_ s =? RUNNING)); [auto|].
  destruct (scan_thread_ s) as [tid|]; cbn -[crashed].
  - destruct (thread_terminated tid (set_state_ OPENED s)); cbn -[crashed];
      change (crashed (set_state_ OPENED s)) with (crashed s);
      destruct (crashed s); cbn; auto.
  - change (crashed (set_state_ OPENED s)) with (crashed s).
    destruct (crashed s); cbn; auto.
Qed.

(** ** The identity shown for the device *)

Lemma doOpen_device_id (s : Driver) :
  device_id_ (snd (doOpen s)) <> "H0000000".
Proof.
  drv_unfold. drv_cases; try discriminate;
    match goal with H : String.eqb _ _ = false |- _ => now apply String.eqb_neq end.
Qed.

Lemma step_device_id (s : Driver) (a : action) :
  device_id_ s <> "H0000000" -> device_id_ (step s a) <> "H0000000".
Proof.
  intros Hinv. unfold step. destruct (crashed s); [exact Hinv|].
  destruct a as [| | |sched|c|tid].
  - apply doOpen_device_id.
  - destruct (doClose_keeps s) as (_ & -> & _). exact Hinv.
  - destruct (doStart_keeps s) as (_ & -> & _). exact Hinv.
  - destruct (doStop_frame sched s) as (_ & _ & _ & _ & _ & -> & _). exact Hinv.
  - exact Hinv.
  - pose proof (tick_frame tid s) as F. cbn zeta in F.
    destruct F as (_ & _ & _ & _ & _ & _ & _ & -> & _). exact Hinv.
Qed.

(** X3: the driver never shows the identity "H0000000": in every state
    reachable from a new object [device_id_] is another string.  And a
    [doOpen] that fails at [laser_.open] leaves both [device_id_] and
    [device_status_] at "unknown", whatever they were before. *)
Theorem device_id_never_default cfg scan0 laser0 (acts : list action) :
  let s := exec (HokuyoDriver_new cfg scan0 laser0) acts in
  device_id_ s <> "H0000000" /\
  (forall e,
     fst (laser_open (port (config_ s)) (model_04LX (config_ s)) (laser_ s)) = Throw e ->
     device_id_ (snd (doOpen s)) = "unknown" /\
     device_status_ (snd (doOpen s)) = "unknown").
Proof.
  cbn zeta. split.
  - apply exec_ind; [cbn; discriminate | apply step_device_id].
  - generalize (exec (HokuyoDriver_new cfg scan0 laser0) acts). intros s e.
    drv_unfold. cbn -[Z.eqb String.eqb].
    destruct (laser_open (port (config_ s)) (model_04LX (config_ s)) (laser_ s))
      as [[u|e'] d]; cbn; [discriminate|].
    intros _. drv_cases; auto.
Qed.

(** ** What the open and start sequences add to the history *)

Lemma doOpen_counts (s : Driver) :
  let tr' := trace (snd (doOpen s)) in
  count_events is_spawn tr' = count_events is_spawn (trace s) /\
  count_events is_requestScans_returned tr' =
    count_events is_requestScans_returned (trace s) /\
  config_ (snd (doOpen s)) = config_ s.
Proof. drv_unfold. drv_cases; trace_simpl; repeat split; lia. Qed.

Lemma doClose_counts (s : Driver) :
  let tr' := trace (snd (doClose s)) in
  count_events is_spawn tr' = count_events is_spawn (trace s) /\
  count_events is_requestScans_returned tr' =
    count_events is_requestScans_returned (trace s) /\
  count_events asks_intensity tr' = count_events asks_intensity (trace s).
Proof. rewrite doClose_eq. cbn. trace_simpl. repeat split; lia. Qed.

Lemma threads_counts (tr evs : list (@event double LaserScan)) :
  Forall (fun e => is_thread_event e = true) evs ->
  count_events is_spawn (tr ++ evs) = count_events is_spawn tr /\
  count_events is_requestScans_returned (tr ++ evs) =
    count_events is_requestScans_returned tr /\
  count_events asks_intensity (tr ++ evs) = count_events asks_intensity tr.
Proof.
  intros F. repeat split; apply count_events_thread; auto;
    intros [[] ?| |]; cbn; congruence.
Qed.

(** ** A model 04LX is never asked for intensities *)

Lemma doOpen_04LX (s : Driver) :
  model_04LX (config_ s) = true ->
  count_events asks_intensity (trace (snd (doOpen s))) =
    count_events asks_intensity (trace s).
Proof.
  intros H. drv_unfold. drv_cases; trace_simpl; rewrite ?H; cbn; lia.
Qed.

Lemma doStart_04LX (s : Driver) :
  model_04LX (config_ s) = true ->
  count_events asks_intensity (trace (snd (doStart s))) =
    count_events asks_intensity (trace s).
Proof.
  intros H. drv_unfold. drv_cases; trace_simpl; rewrite ?H; cbn; lia.
Qed.

Lemma step_04LX (s : Driver) (a : action) :
  keeps_04LX a = true ->
  model_04LX (config_ s) = true ->
  model_04LX (config_ (step s a)) = true /\
  count_events asks_intensity (trace (step s a)) =
    count_events asks_intensity (trace s).
Proof.
  intros Ha Hm. unfold step. destruct (crashed s); [auto|].
  destruct a as [| | |sched|c|tid].
  - destruct (doOpen_counts s) as (_ & _ & ->). auto using doOpen_04LX.
  - destruct (doClose_keeps s) as (-> & _). destruct (doClose_counts s) as (_ & _ & ->).
    auto.
  - destruct (doStart_keeps s) as (-> & _). auto using doStart_04LX.
  - destruct (doStop_frame sched s) as (_ & _ & _ & _ & -> & _).
    destruct (doStop_events sched s) as (evs & -> & F).
    destruct (threads_counts (trace s) evs F) as (_ & _ & ->). auto.
  - cbn. auto.
  - pose proof (tick_frame tid s) as F. cbn zeta in F.
    destruct F as (_ & _ & _ & _ & _ & _ & -> & _).
    destruct (tick_events tid s) as (evs & -> & F).
    destruct (threads_counts (trace s) evs F) as (_ & _ & ->). auto.
Qed.

(** X4: a driver configured for the model 04LX never asks the device for
    intensities.  If the configuration of a new object and every
    configuration applied later have [model_04LX] set, then no call of
    [calcLatency] or [requestScans] in the history has its first argument
    true, whatever the [intensity] fields say. *)
Theorem model_04LX_never_asks_intensity cfg scan0 laser0 (acts : list action) :
  model_04LX cfg = true ->
  Forall (fun a => keeps_04LX a = true) acts ->
  count_events asks_intensity (trace (exec (HokuyoDriver_new cfg scan0 laser0) acts)) = 0%nat.
Proof.
  intros Hcfg Hacts.
  assert (H : forall s : Driver,
             model_04LX (config_ s) = true ->
             count_events asks_intensity (trace (exec s acts)) =
               count_events asks_intensity (trace s)).
  { induction Hacts as [|a acts Ha _ IH]; intros s Hm; [reflexivity|].
    destruct (step_04LX s a Ha Hm) as (Hm' & Hc).
    change (exec s (a :: acts)) with (exec (step s a) acts).
    now rewrite IH. }
  now rewrite H.
Qed.

(** ** Threads and the handle *)

Lemma step_handle (s : Driver) (a : action) :
  (forall tid, scan_thread_ s = Some tid -> S tid = length (threads s)) /\
  count_events is_spawn (trace s) = length (threads s) ->
  (forall tid, scan_thread_ (step s a) = Some tid -> S tid = length (threads (step s a))) /\
  count_events is_spawn (trace (step s a)) = length (threads (step s a)).
Proof.
  intros (Hh & Hn). unfold step. destruct (crashed s); [auto|].
  destruct a as [| | |sched|c|tid].
  - destruct (doOpen_frame s) as (-> & -> & _). destruct (doOpen_counts s) as (-> & _).
    auto.
  - destruct (doClose_frame s) as (_ & -> & -> & _).
    destruct (doClose_counts s) as (-> & _). auto.
  - revert Hh Hn. drv_unfold. drv_cases; intros Hh Hn; trace_simpl;
      rewrite ?length_app; cbn; split; try (intros tid Ht; injection Ht as <-);
      auto; lia.
  - destruct (doStop_frame sched s) as (Hlen & _ & _ & _ & _ & _ & _ & Hhd).
    destruct (doStop_events sched s) as (evs & E & F).
    rewrite E, Hlen. destruct (threads_counts (trace s) evs F) as (-> & _).
    split; [|exact Hn]. intros tid Ht. destruct Hhd as [Hhd|Hhd]; rewrite Hhd in Ht.
    + auto.
    + discriminate.
  - cbn. auto.
  - pose proof (tick_frame tid s) as F. cbn zeta in F. destruct F as (-> & -> & _).
    destruct (tick_counts tid s) as (_ & _ & ->). auto.
Qed.

(** X12: in every state reachable from a new object, the handle
    [scan_thread_], when set, names the thread created last; there are
    as many threads as thread creations recorded; and a [RUNNING] driver
    has a handle that names an existing thread. *)
Theorem handle_names_newest_thread cfg scan0 laser0 (acts : list action) :
  let s := exec (HokuyoDriver_new cfg scan0 laser0) acts in
  (forall tid, scan_thread_ s = Some tid -> S tid = length (threads s)) /\
  count_events is_spawn (trace s) = length (threads s) /\
  (state_ s = RUNNING ->
   exists tid p, scan_thread_ s = Some tid /\ threads s !! tid = Some p).
Proof.
  cbn zeta.
  assert (H : (forall tid, scan_thread_ (exec (HokuyoDriver_new cfg scan0 laser0) acts) = Some tid ->
                 S tid = length (threads (exec (HokuyoDriver_new cfg scan0 laser0) acts))) /\
              count_events is_spawn (trace (exec (HokuyoDriver_new cfg scan0 laser0) acts)) =
                length (threads (exec (HokuyoDriver_new cfg scan0 laser0) acts))).
  { apply exec_ind; [|apply step_handle]. cbn. split; [discriminate | reflexivity]. }
  destruct H as (Hh & Hn). split; [exact Hh|]. split; [exact Hn|].
  intros Hr. destruct (running_has_thread cfg scan0 laser0 acts Hr) as [tid Ht].
  exists tid. specialize (Hh tid Ht).
  destruct (lookup_lt_is_Some_2 (threads (exec (HokuyoDriver_new cfg scan0 laser0) acts)) tid)
    as [p Hp]; [lia|].
  exists p. auto.
Qed.

(** ** What [corrupted_scan_count_] counts *)

Lemma doStart_accounting (s : Driver) :
  let s' := snd (doStart s) in
  let r := count_events is_requestScans_returned (trace s) in
  let r' := count_events is_requestScans_returned (trace s') in
  let sp := count_events is_spawn (trace s) in
  let sp' := count_events is_spawn (trace s') in
  (r' = r /\ sp' = sp /\ corrupted_scan_count_ s' = corrupted_scan_count_ s) \/
  (r' = S r /\ sp' = sp /\
   corrupted_scan_count_ s' = int_incr (corrupted_scan_count_ s)) \/
  (r' = S r /\ sp' = S sp /\ corrupted_scan_count_ s' = corrupted_scan_count_ s).
Proof.
  drv_unfold. drv_cases; trace_simpl;
    first [ left; repeat split; lia
          | right; left; repeat split; lia
          | right; right; repeat split; lia ].
Qed.

Lemma step_accounting (s : Driver) (a : action) :
  let r := count_events is_requestScans_returned (trace s) in
  let sp := count_events is_spawn (trace s) in
  let r' := count_events is_requestScans_returned (trace (step s a)) in
  let sp' := count_events is_spawn (trace (step s a)) in
  (sp <= r)%nat /\
  (Z.of_nat r <= INT_MAX -> corrupted_scan_count_ s = Z.of_nat r - Z.of_nat sp) ->
  (sp' <= r')%nat /\
  (Z.of_nat r' <= INT_MAX ->
   corrupted_scan_count_ (step s a) = Z.of_nat r' - Z.of_nat sp').
Proof.
  cbn zeta. intros (Hle & Hc). unfold step. destruct (crashed s); [auto|].
  destruct a as [| | |sched|c|tid].
  - destruct (doOpen_frame s) as (_ & _ & _ & -> & _).
    destruct (doOpen_counts s) as (-> & -> & _). auto.
  - destruct (doClose_frame s) as (_ & _ & _ & _ & _ & _ & -> & _).
    destruct (doClose_counts s) as (-> & -> & _). auto.
  - destruct (doStart_accounting s) as [(-> & -> & ->)|[(-> & -> & ->)|(-> & -> & ->)]].
    + auto.
    + split; [lia|]. intros Hr. rewrite Hc by lia.
      rewrite int_incr_in_range; unfold INT_MAX in *; lia.
    + split; [lia|]. intros Hr. rewrite Hc by lia. lia.
  - destruct (doStop_frame sched s) as (_ & _ & _ & -> & _).
    destruct (doStop_events sched s) as (evs & -> & F).
    destruct (threads_counts (trace s) evs F) as (-> & -> & _). auto.
  - cbn. auto.
  - pose proof (tick_frame tid s) as F. cbn zeta in F.
    destruct F as (_ & _ & _ & _ & _ & -> & _).
    destruct (tick_events tid s) as (evs & -> & F).
    destruct (threads_counts (trace s) evs F) as (-> & -> & _). auto.
Qed.

(** X13: [corrupted_scan_count_] counts the scan requests the device has
    rejected, not the corrupted frames.  In every state reachable from a
    new object, with [r] calls of [requestScans] that returned and [sp]
    threads created: [sp <= r], and as long as [r] fits an [int] the
    counter equals [r - sp], the number of requests that returned without
    a thread being started. *)
Theorem corrupted_count_counts_rejections cfg scan0 laser0 (acts : list action) :
  let s := exec (HokuyoDriver_new cfg scan0 laser0) acts in
  let r := count_events is_requestScans_returned (trace s) in
  let sp := count_events is_spawn (trace s) in
  (sp <= r)%nat /\
  (Z.of_nat r <= INT_MAX -> corrupted_scan_count_ s = Z.of_nat r - Z.of_nat sp).
Proof.
  cbn zeta. apply exec_ind.
  - unfold count_events. cbn. split; [lia | reflexivity].
  - intros s a. apply step_accounting.
Qed.

(** ** In the driver, [doOpen] and [doStart] alone read the configuration *)

Lemma scanThread_step_config (c : Config) (p : thread_pc) (s : Driver) :
  scanThread_step p (set_config_ c s) =
    (fst (scanThread_step p s), set_config_ c (snd (scanThread_step p s))).
Proof.
  destruct p; unfold scanThread_step; drv_unfold; cbn -[Z.eqb String.eqb].
  - destruct (state_ s =? RUNNING)%Z; reflexivity.
  - destruct (laser_serviceScan (scan_ s) (laser_ s)) as [[[status|e] f] d]; cbn.
    + destruct (negb (status =? 0)%Z); reflexivity.
    + destruct (is_corrupted e); [reflexivity|].
      cbn. destruct (laser_close d) as [[u|e'] d']; reflexivity.
  - destruct (laser_stopScanning (laser_ s)) as [[u|e] d]; reflexivity.
  - reflexivity.
  - reflexivity.
Qed.

Lemma tick_config (c : Config) (tid : nat) (s : Driver) :
  tick tid (set_config_ c s) = set_config_ c (tick tid s).
Proof.
  unfold tick. change (crashed (set_config_ c s)) with (crashed s).
  destruct (crashed s); [reflexivity|].
  change (threads (set_config_ c s)) with (threads s).
  destruct (threads s !! tid) as [p|]; [|reflexivity].
  rewrite scanThread_step_config.
  destruct (scanThread_step p s) as [p' s']. reflexivity.
Qed.

Lemma timed_join_config (c : Config) (tid : nat) (sched : list (nat * nat)) :
  forall (ms : nat) (s : Driver),
  timed_join tid ms sched (set_config_ c s) =
    (fst (timed_join tid ms sched s), set_config_ c (snd (timed_join tid ms sched s))).
Proof.
  induction sched as [|[t dt] rest IH]; intros ms s; cbn;
    change (thread_terminated tid (set_config_ c s)) with (thread_terminated tid s);
    destruct (thread_terminated tid s); try reflexivity.
  destruct (dt <=? ms)%nat; [|reflexivity].
  rewrite tick_config, IH.
  destruct (timed_join tid (ms - dt) rest (tick t s)) as [[[j w]|e] s']; reflexivity.
Qed.

Lemma doStop_config (c : Config) (sched : list (nat * nat)) (s : Driver) :
  snd (doStop sched (set_config_ c s)) = set_config_ c (snd (doStop sched s)).
Proof.
  unfold doStop, bind, ret, modify, when. cbv beta iota.
  change (state_ (set_config_ c s)) with (state_ s).
  destruct (negb (state_ s =? RUNNING)%Z); [reflexivity|].
  change (scan_thread_ (set_state_ OPENED (set_config_ c s))) with (scan_thread_ s).
  change (scan_thread_ (set_state_ OPENED s)) with (scan_thread_ s).
  change (set_state_ OPENED (set_config_ c s)) with (set_config_ c (set_state_ OPENED s)).
  destruct (scan_thread_ s) as [tid|]; cbv beta iota.
  - rewrite timed_join_config.
    destruct (timed_join tid 2000 sched (set_state_ OPENED s)) as [[[j w]|e] s'];
      cbn -[crashed]; [|reflexivity].
    change (crashed (set_config_ c s')) with (crashed s').
    destruct (crashed s'); [reflexivity|]. destruct j; reflexivity.
  - change (crashed (set_config_ c (set_state_ OPENED s))) with (crashed s).
    change (crashed (set_state_ OPENED s)) with (crashed s).
    destruct (crashed s); reflexivity.
Qed.

Lemma step_config (c : Config) (s : Driver) (a : action) :
  close_stop_or_tick a = true -> step (set_config_ c s) a = set_config_ c (step s a).
Proof.
  intros Ha. unfold step. change (crashed (set_config_ c s)) with (crashed s).
  destruct (crashed s); [reflexivity|].
  destruct a as [| | |sched|c'|tid]; try discriminate Ha.
  - rewrite !doClose_eq. reflexivity.
  - apply doStop_config.
  - apply tick_config.
Qed.

(** X5: of the member functions of [HokuyoDriver], [doClose], [doStop]
    and [scanThread] do not read [config_].  Over any run of such calls
    and thread steps, applying a configuration before the run or after
    it gives the same driver object: the same fields, the same device
    calls, the same frames handed to the callback.  And none of them
    assigns [config_]: at the end of every such run it is the
    configuration applied, which is what the code outside the driver
    reads at once ([publishScan] its [frame_id] when it is handed a
    frame, [connectionStatus] its [port]). *)
Theorem config_update_commutes (c : Config) (acts : list action) (s : Driver) :
  Forall (fun a => close_stop_or_tick a = true) acts ->
  exec (snd (config_update c s)) acts = snd (config_update c (exec s acts)) /\
  config_ (exec (snd (config_update c s)) acts) = c.
Proof.
  intros Hacts.
  assert (E : exec (set_config_ c s) acts = set_config_ c (exec s acts)).
  { revert s. induction Hacts as [|a acts Ha _ IH]; intros s; [reflexivity|].
    change (exec (set_config_ c s) (a :: acts)) with (exec (step (set_config_ c s) a) acts).
    change (exec s (a :: acts)) with (exec (step s a) acts).
    now rewrite step_config, IH. }
  change (exec (set_config_ c s) acts = set_config_ c (exec s acts) /\
          config_ (exec (set_config_ c s) acts) = c).
  split; [exact E | now rewrite E].
Qed.

(** ** The thread winds down once the state is not [RUNNING] *)

Lemma tick_winds_down (tid : nat) (s : Driver) (p : thread_pc) :
  crashed s = false -> threads s !! tid = Some p -> state_ s <> RUNNING ->
  exists p',
    threads (tick tid s) !! tid = Some p' /\
    (steps_left p' <= pred (steps_left p))%nat /\
    state_ (tick tid s) <> RUNNING /\
    (crashed (tick tid s) = false \/ terminated p' = true) /\
    count_events is_serviceScan (trace (tick tid s)) =
      (count_events is_serviceScan (trace s) +
       match p with InServiceScan => 1 | _ => 0 end)%nat.
Proof.
  intros Hc Hp Hst. exists (fst (scanThread_step p s)).
  split; [now apply tick_lookup|].
  assert (Hstate : state_ (tick tid s) <> RUNNING).
  { destruct (tick_state tid s) as [[E _]|[[E _]|[E _]]]; rewrite E;
      [exact Hst | discriminate | discriminate]. }
  assert (Hcr : crashed (tick tid s) = false \/
                terminated (fst (scanThread_step p s)) = true).
  { rewrite (tick_unfold tid s p Hc Hp). unfold crashed. cbn.
    destruct (fst (scanThread_step p s)) eqn:E; cbn; auto;
      left; apply crashed_insert; try discriminate; exact Hc. }
  split; [|split; [exact Hstate|split; [exact Hcr|]]].
  - destruct p; unfold scanThread_step; cbn.
    + destruct (Z.eqb_spec (state_ s) RUNNING); [contradiction | cbn; lia].
    + destruct (laser_serviceScan (scan_ s) (laser_ s)) as [[[status|e] f] d]; cbn.
      * destruct (negb (status =? 0)%Z); cbn; lia.
      * destruct (is_corrupted e); cbn; lia.
    + unfold on_laser. destruct (laser_stopScanning (laser_ s)) as [[u|e] d]; cbn; lia.
    + lia.
    + lia.
  - rewrite (tick_unfold tid s p Hc Hp). cbn.
    destruct p; unfold scanThread_step; drv_unfold; drv_cases; trace_simpl; lia.
Qed.

(** Only [doStart] assigns [RUNNING]. *)
Lemma step_keeps_stopped (s : Driver) (a : action) :
  state_ s <> RUNNING -> a <> a_start -> state_ (step s a) <> RUNNING.
Proof.
  intros Hst Ha. unfold step. destruct (crashed s); [exact Hst|].
  destruct a as [| | |sched|c|t]; try contradiction.
  - rewrite doOpen_state. destruct (returned _); discriminate.
  - rewrite doClose_eq. discriminate.
  - now rewrite (doStop_not_running sched s Hst).
  - exact Hst.
  - destruct (tick_state t s) as [[E _]|[[E _]|[E _]]]; rewrite E;
      [exact Hst | discriminate | discriminate].
Qed.

Lemma exec_crashed (acts : list action) (s : Driver) :
  crashed s = true -> exec s acts = s.
Proof.
  intros Hc. induction acts as [|a acts IH]; [reflexivity|].
  change (exec s (a :: acts)) with (exec (step s a) acts).
  unfold step at 1. now rewrite Hc.
Qed.

Lemma tick_other (t tid : nat) (s : Driver) :
  t <> tid -> threads (tick t s) !! tid = threads s !! tid.
Proof.
  intros Hne. destruct (tick_cases t s) as [E | (p & _ & _ & E)]; rewrite E;
    [reflexivity|].
  cbn. now apply list_lookup_insert_ne.
Qed.

Lemma steps_of_cons (tid : nat) (a : @action double) (acts : list (@action double)) :
  steps_of tid (a :: acts) =
    (match a with
     | a_tick t => if Nat.eqb t tid then 1 else 0
     | _ => 0
     end + steps_of tid acts)%nat.
Proof.
  unfold steps_of. cbn.
  destruct a as [| | |sched|c|t]; try reflexivity.
  destruct (Nat.eqb t tid); reflexivity.
Qed.

Lemma step_winds_down (tid : nat) (s : Driver) (a : action) (p : thread_pc) :
  crashed s = false -> state_ s <> RUNNING -> a <> a_start ->
  threads s !! tid = Some p ->
  exists p',
    threads (step s a) !! tid = Some p' /\
    (steps_left p' <= steps_left p - steps_of tid [a])%nat.
Proof.
  intros Hc Hst Ha Hp. unfold step. rewrite Hc.
  rewrite steps_of_cons. change (@steps_of double tid []) with 0%nat.
  destruct a as [| | |sched|c|t]; try contradiction.
  - exists p. destruct (doOpen_frame s) as (_ & -> & _). split; [exact Hp | lia].
  - exists p. rewrite doClose_eq. split; [exact Hp | lia].
  - exists p. rewrite (doStop_not_running sched s Hst). split; [exact Hp | lia].
  - exists p. split; [exact Hp | lia].
  - destruct (Nat.eqb_spec t tid) as [->|Hne].
    + destruct (tick_winds_down tid s p Hc Hp Hst) as (p' & Hp' & Hl & _).
      exists p'. split; [exact Hp' | lia].
    + exists p. rewrite (tick_other t tid s Hne). split; [exact Hp | lia].
Qed.

Lemma exec_winds_down (tid : nat) (acts : list action) :
  forall (s : Driver) (p : thread_pc),
  state_ s <> RUNNING -> Forall (fun a => a <> a_start) acts ->
  threads s !! tid = Some p ->
  state_ (exec s acts) <> RUNNING /\
  (crashed (exec s acts) = true \/
   exists p', threads (exec s acts) !! tid = Some p' /\
              (steps_left p' <= steps_left p - steps_of tid acts)%nat).
Proof.
  induction acts as [|a acts IH]; intros s p Hst Hacts Hp.
  - split; [exact Hst|]. right. exists p. split; [exact Hp | cbn; lia].
  - apply List.Forall_cons_iff in Hacts as [Ha Hacts].
    destruct (crashed s) eqn:Hc.
    + rewrite (exec_crashed _ s Hc). split; [exact Hst | now left].
    + change (exec s (a :: acts)) with (exec (step s a) acts).
      destruct (step_winds_down tid s a p Hc Hst Ha Hp) as (p1 & Hp1 & Hl1).
      destruct (IH (step s a) p1 (step_keeps_stopped s a Hst Ha) Hacts Hp1)
        as (Hst' & [Hc'|(p' & Hp' & Hl')]).
      * split; [exact Hst' | now left].
      * split; [exact Hst'|]. right. exists p'. split; [exact Hp'|].
        rewrite steps_of_cons in *. change (@steps_of double tid []) with 0%nat in Hl1. lia.
Qed.

Lemma in_flight_insert (l : list thread_pc) (t : nat) (p p' : thread_pc) :
  l !! t = Some p ->
  (in_flight (<[t := p']> l) + match p with InServiceScan => 1 | _ => 0 end =
   in_flight l + match p' with InServiceScan => 1 | _ => 0 end)%nat.
Proof.
  unfold in_flight. revert t.
  induction l as [|q l IH]; intros [|t] Hp; try (cbn in Hp; discriminate Hp).
  - cbn in Hp. injection Hp as ->.
    change (<[0%nat := p']> (p :: l)) with (p' :: l).
    cbn [List.filter]. destruct p, p'; cbn [length]; lia.
  - change (<[S t := p']> (q :: l)) with (q :: <[t := p']> l).
    cbn [List.filter]. specialize (IH t Hp). destruct q; cbn [length]; lia.
Qed.

Lemma doOpen_serviceScan (s : Driver) :
  count_events is_serviceScan (trace (snd (doOpen s))) =
    count_events is_serviceScan (trace s).
Proof. drv_unfold. drv_cases; trace_simpl; lia. Qed.

(** While the state is not [RUNNING] no thread enters [serviceScan]: the
    calls made and the calls in flight do not grow together. *)
Lemma step_in_flight (s : Driver) (a : action) :
  state_ s <> RUNNING -> a <> a_start ->
  (count_events is_serviceScan (trace (step s a)) + in_flight (threads (step s a)) <=
   count_events is_serviceScan (trace s) + in_flight (threads s))%nat.
Proof.
  intros Hst Ha. unfold step. destruct (crashed s) eqn:Hc; [lia|].
  destruct a as [| | |sched|c|t]; try contradiction.
  - rewrite doOpen_serviceScan. destruct (doOpen_frame s) as (_ & -> & _). lia.
  - assert (E : count_events is_serviceScan (trace (snd (doClose s))) =
                 count_events is_serviceScan (trace s))
      by (rewrite doClose_eq; cbn; trace_simpl; lia).
    destruct (doClose_frame s) as (_ & _ & Hth & _). rewrite E, Hth. lia.
  - rewrite (doStop_not_running sched s Hst). cbn [snd]. lia.
  - cbn [snd config_update modify]. change (trace (set_config_ c s)) with (trace s).
    change (threads (set_config_ c s)) with (threads s). lia.
  - destruct (threads s !! t) as [p|] eqn:Hp.
    + destruct (tick_winds_down t s p Hc Hp Hst) as (p' & Hp' & Hl & _ & _ & Hcnt).
      rewrite Hcnt.
      assert (Hth : threads (tick t s) = <[t := p']> (threads s)).
      { rewrite (tick_unfold t s p Hc Hp) in Hp' |- *. cbn in Hp' |- *.
        rewrite list_lookup_insert_eq in Hp' by (eapply lookup_lt_Some; eauto).
        now injection Hp' as ->. }
      rewrite Hth. pose proof (in_flight_insert (threads s) t p p' Hp) as Hi.
      destruct p, p'; cbn [steps_left pred] in Hl; lia.
    + unfold tick. rewrite Hc, Hp. lia.
Qed.

Lemma exec_in_flight (acts : list action) :
  forall s : Driver,
  state_ s <> RUNNING -> Forall (fun a => a <> a_start) acts ->
  (count_events is_serviceScan (trace (exec s acts)) + in_flight (threads (exec s acts)) <=
   count_events is_serviceScan (trace s) + in_flight (threads s))%nat.
Proof.
  induction acts as [|a acts IH]; intros s Hst Hacts; [cbn; lia|].
  apply List.Forall_cons_iff in Hacts as [Ha Hacts].
  change (exec s (a :: acts)) with (exec (step s a) acts).
  pose proof (IH (step s a) (step_keeps_stopped s a Hst Ha) Hacts).
  pose proof (step_in_flight s a Hst Ha). lia.
Qed.

(** X6: once the state is no longer [RUNNING], and as long as [doStart]
    is not called, the threads wind down, whatever the device answers
    and however the calls of the controlling thread and the steps of
    other threads fall between their steps.  The state stays off
    [RUNNING]; a thread that has taken three steps has terminated,
    unless an exception has left a thread and ended the process; and
    each thread calls [serviceScan] at most once more, the return of the
    call it is in: the calls of [serviceScan] grow by no more than the
    number of threads that were inside it. *)
Theorem scanThread_winds_down (tid : nat) (acts : list action) (s : Driver)
    (p : thread_pc) :
  state_ s <> RUNNING -> threads s !! tid = Some p ->
  Forall (fun a => a <> a_start) acts ->
  let s' := exec s acts in
  state_ s' <> RUNNING /\
  ((3 <= steps_of tid acts)%nat ->
   crashed s' = true \/ thread_terminated tid s' = true) /\
  (count_events is_serviceScan (trace s') <=
   count_events is_serviceScan (trace s) + in_flight (threads s))%nat.
Proof.
  intros Hst Hp Hacts. cbn zeta.
  destruct (exec_winds_down tid acts s p Hst Hacts Hp) as (Hst' & Hend).
  split; [exact Hst'|]. split.
  - intros H3. destruct Hend as [Hc|(p' & Hp' & Hl)]; [now left|].
    right. unfold thread_terminated. rewrite Hp'.
    assert (H0 : steps_left p' = 0%nat) by (destruct p; cbn in Hl; lia).
    destruct p'; cbn in H0; try discriminate; reflexivity.
  - pose proof (exec_in_flight acts s Hst Hacts). lia.
Qed.

(** ** A stop that joins the thread *)



(** ** Threads that outlive a stop *)

(** [doStop] when nothing happens within the bound and the thread is
    still at work. *)
Lemma doStop_times_out (tid : nat) (s : Driver) :
  state_ s = RUNNING -> scan_thread_ s = Some tid ->
  crashed s = false -> thread_terminated tid s = false ->
  snd (doStop [] s) =
    set_scan_thread_ None
      (set_lost_scan_thread_count_ (int_incr (lost_scan_thread_count_ s))
         (set_state_ OPENED s)).
Proof.
  intros Hst Hh Hc Ht. unfold doStop, bind, ret, modify, when. cbv beta iota.
  rewrite Hst. cbn -[crashed thread_terminated]. rewrite Hh.
  cbn -[crashed thread_terminated].
  change (thread_terminated tid (set_state_ OPENED s)) with (thread_terminated tid s).
  rewrite Ht. cbn -[crashed].
  change (crashed (set_state_ OPENED s)) with (crashed s). rewrite Hc. reflexivity.
Qed.

(** X9: a frame whose request is in flight when [doStop] gives up still
    reaches the callback.  When [doStop] is called in [RUNNING] with the
    thread inside [serviceScan] and nothing happens within the bound,
    [doStop] ends in [OPENED] with the handle dropped; when the request
    then returns a frame with status 0, the thread hands it to the
    callback, with the state still [OPENED]. *)
Theorem frame_in_flight_is_delivered_after_stop (tid : nat) (s : Driver) f d :
  state_ s = RUNNING -> scan_thread_ s = Some tid ->
  crashed s = false -> threads s !! tid = Some InServiceScan ->
  laser_serviceScan (scan_ s) (laser_ s) = (Ok 0, f, d) ->
  let s1 := snd (doStop [] s) in
  state_ s1 = OPENED /\ scan_thread_ s1 = None /\
  callbacks (trace s1) = callbacks (trace s) /\
  callbacks (trace (tick tid s1)) = callbacks (trace s) ++ [f] /\
  state_ (tick tid s1) = OPENED.
Proof.
  intros Hst Hh Hc Hp Hd. cbn zeta.
  assert (Ht : thread_terminated tid s = false).
  { unfold thread_terminated. now rewrite Hp. }
  rewrite (doStop_times_out tid s Hst Hh Hc Ht).
  set (s1 := set_scan_thread_ None _).
  assert (Hc1 : crashed s1 = false) by exact Hc.
  assert (Hp1 : threads s1 !! tid = Some InServiceScan) by exact Hp.
  assert (Hd1 : laser_serviceScan (scan_ s1) (laser_ s1) = (Ok 0, f, d)) by exact Hd.
  rewrite (tick_frame_delivered tid s1 f d Hc1 Hp1 Hd1).
  repeat split. cbn. trace_simpl. reflexivity.
Qed.

(** X10: the assignment after the loop does not look at the state.  A
    thread that meets the loop condition after the driver has been closed
    leaves the loop, calls [stopScanning] and, if that call returns, puts
    the state to [OPENED]: the driver is [OPENED] again although nothing
    but [stopScanning] has been called on the device. *)
Theorem late_thread_reopens_state (tid : nat) (s : Driver) (d : Laser) :
  crashed s = false -> threads s !! tid = Some AtWhile -> state_ s = CLOSED ->
  laser_stopScanning (laser_ s) = (Ok tt, d) ->
  let s' := ticks [tid; tid] s in
  state_ s' = OPENED /\
  threads s' !! tid = Some Returned /\
  trace s' = trace s ++ [Called c_stopScanning true].
Proof.
  intros Hc Hp Hst Hd. cbn zeta. unfold ticks. cbn [fold_left].
  assert (Hlt : (tid < length (threads s))%nat) by (eapply lookup_lt_Some; eauto).
  rewrite (tick_leave_loop tid s Hc Hp) by (rewrite Hst; discriminate).
  set (s1 := set_threads _ s).
  assert (Hc1 : crashed s1 = false).
  { unfold crashed. cbn. apply crashed_insert; [exact Hc | discriminate]. }
  assert (Hp1 : threads s1 !! tid = Some AfterLoop).
  { cbn. now apply list_lookup_insert_eq. }
  rewrite (tick_after_loop tid s1 Hc1 Hp1).
  change (laser_ s1) with (laser_ s). rewrite Hd. cbn.
  repeat split. apply list_lookup_insert_eq. now rewrite length_insert.
Qed.

(** ** Diagnostics of a reachable driver *)


(** X14: the acquisition thread changes nothing of what the diagnostics
    list.  After any steps of threads, also steps that close the device
    on a fatal fault, the key-values [connectionStatus] adds (port,
    device identity, device status and the two counters) are the same,
    and [connect_fail_] and [calibrated_] are as before: the fault that
    closed the device is recorded nowhere. *)
Theorem thread_steps_keep_diagnostics (ts : list nat) (s : Driver)
    (fail : string) (st : DiagnosticStatus) :
  values (connectionStatus (mkNode fail (ticks ts s)) st) =
    values (connectionStatus (mkNode fail s) st) /\
  connect_fail_ (ticks ts s) = connect_fail_ s /\
  calibrated_ (ticks ts s) = calibrated_ s.
Proof.
  pose proof (ticks_frame ts s) as F. cbn zeta in F.
  destruct F as (_ & _ & Hcal & Hcf & Hlost & Hcorr & Hcfg & Hid & Hds).
  split; [|auto].
  unfold connectionStatus. cbn -[Z.eqb String.eqb String.append].
  rewrite Hlost, Hcorr, Hcfg, Hid, Hds.
  destruct (state_ (ticks ts s) =? CLOSED)%Z, (state_ s =? CLOSED)%Z,
    (negb (String.eqb (device_status_ s) "Sensor works well.")),
    (state_ (ticks ts s) =? RUNNING)%Z, (state_ s =? RUNNING)%Z,
    (state_ (ticks ts s) =? OPENED)%Z, (state_ s =? OPENED)%Z; reflexivity.
Qed.

End DriverFacts.

(** * Properties of the self tests *)

Section SelfTestFacts.

Context {double LaserScan Laser : Type}.
Context {dev : @LaserDevice double LaserScan Laser}.
Context {tdev : @LaserTestCalls double LaserScan Laser}.

Abbreviation count_corrupted l := (length (List.filter is_corrupted_answer l)).

(** The counting loop on answers it survives: it returns the counter
    advanced by the number of corrupted answers. *)
Lemma service_scans_counting_tolerated (n : nat) :
  forall (c : Z) (scan : LaserScan) (d : Laser),
  Forall (fun r => tolerated r = true) (scan_answers n scan d) ->
  0 <= c -> c + Z.of_nat n <= INT_MAX ->
  exists d',
    service_scans_counting n c scan d =
      (Ok (c + Z.of_nat (count_corrupted (scan_answers n scan d))), d').
Proof.
  induction n as [|n IH]; intros c scan d Hall Hc Hmax.
  - exists d. cbn. now rewrite Z.add_0_r.
  - cbn [scan_answers service_scans_counting] in *.
    destruct (laser_serviceScan_t scan 1000 d) as [[[status|e] scan'] d1].
    + apply Forall_cons in Hall as [_ Hall].
      destruct (IH c scan' d1 Hall Hc) as (d' & E); [lia|].
      exists d'. rewrite E. cbn. reflexivity.
    + apply Forall_cons in Hall as [He Hall]. cbn in He. rewrite He.
      assert (Hi : int_incr c = c + 1).
      { apply int_incr_in_range. unfold INT_MAX in *. lia. }
      destruct (IH (int_incr c) scan' d1 Hall) as (d' & E); [lia | lia |].
      exists d'. rewrite E. cbn. rewrite He. cbn [length]. rewrite Hi. f_equal. f_equal. lia.
Qed.

(** X15: what [streamedIntensityDataTest] reports.  When the scan request
    returns 0 and none of the 99 answers to [serviceScan] is an exception
    other than corrupted data, the test returns; with [k] corrupted
    answers among the 99 the level is 0 for [k = 0], 1 for [k = 1] and 2
    for [k >= 2], where the message names [k]; the statuses the calls
    return play no part, and the key-values of the status are kept. *)
Theorem streamedIntensityDataTest_counts (lc : LaserConfig) (scan : LaserScan)
    (status : DiagnosticStatus) (d d1 : Laser) :
  laser_requestScans_n false (min_angle lc) (max_angle lc) 1 1 99 1000 d = (Ok 0, d1) ->
  Forall (fun r => tolerated r = true) (scan_answers 99 scan d1) ->
  let k := count_corrupted (scan_answers 99 scan d1) in
  exists st' d2,
    streamedIntensityDataTest lc scan status d = (Ok st', d2) /\
    values st' = values status /\
    (k = 0%nat -> level st' = 0 /\
       message st' = "Stramed data with intensity from Hokuyo successfully.") /\
    (k = 1%nat -> level st' = 1 /\
       message st' = "Single corrupted message.  This is acceptable and unavoidable") /\
    ((2 <= k)%nat -> level st' = 2 /\
       message st' = (int_to_string (Z.of_nat k) ++ " corrupted messages.")%string).
Proof.
  intros Hreq Hall. cbn zeta.
  destruct (service_scans_counting_tolerated 99 0 scan d1 Hall) as (d2 & E);
    [lia | unfold INT_MAX; lia |].
  unfold streamedIntensityDataTest. rewrite Hreq. cbn [negb Z.eqb]. cbv iota.
  rewrite E. rewrite Z.add_0_l.
  generalize (count_corrupted (scan_answers 99 scan d1)). intros k.
  destruct (Z.eqb_spec (Z.of_nat k) 1) as [H1|H1].
  - eexists _, d2. split; [reflexivity|]. cbn.
    repeat split; intros; try reflexivity; lia.
  - destruct (Z.gtb_spec (Z.of_nat k) 1) as [H2|H2].
    + eexists _, d2. split; [reflexivity|]. cbn.
      repeat split; intros; try reflexivity; lia.
    + eexists _, d2. split; [reflexivity|]. cbn.
      repeat split; intros; try reflexivity; lia.
Qed.

Lemma service_scans_returned (n : nat) :
  forall (scan : LaserScan) (d : Laser),
  Forall (fun r => returned r = true) (scan_answers n scan d) ->
  exists d', service_scans n scan d = (Ok tt, d').
Proof.
  induction n as [|n IH]; intros scan d Hall.
  - exists d. reflexivity.
  - cbn [scan_answers service_scans] in *.
    destruct (laser_serviceScan_t scan 1000 d) as [[[status|e] scan'] d1];
      apply Forall_cons in Hall as [Hr Hall]; [|discriminate Hr].
    apply IH, Hall.
Qed.

(** X16: [streamedDataTest] does not look at what [serviceScan] returns.
    When the scan request returns 0 and the 99 calls of [serviceScan]
    return, whatever their statuses, the test reports level 0 with the
    message of success. *)
Theorem streamedDataTest_ignores_statuses (lc : LaserConfig) (scan : LaserScan)
    (status : DiagnosticStatus) (d d1 : Laser) :
  laser_requestScans_n false (min_angle lc) (max_angle lc) 1 1 99 1000 d = (Ok 0, d1) ->
  Forall (fun r => returned r = true) (scan_answers 99 scan d1) ->
  exists d2,
    streamedDataTest lc scan status d =
      (Ok (set_message "Streamed data from Hokuyo successfully." (set_level 0 status)), d2).
Proof.
  intros Hreq Hall.
  destruct (service_scans_returned 99 scan d1 Hall) as (d2 & E).
  exists d2. unfold streamedDataTest. rewrite Hreq. cbn [negb Z.eqb]. cbv iota.
  now rewrite E.
Qed.

Lemma service_scans_throws (n : nat) :
  forall (scan : LaserScan) (d : Laser) (i : nat) (e : Exception),
  scan_answers n scan d !! i = Some (Throw e) ->
  (forall j, (j < i)%nat -> exists st, scan_answers n scan d !! j = Some (Ok st)) ->
  fst (service_scans n scan d) = Throw e.
Proof.
  induction n as [|n IH]; intros scan d i e Hi Hbefore; [discriminate Hi|].
  cbn [scan_answers service_scans] in *.
  destruct (laser_serviceScan_t scan 1000 d) as [[r scan'] d1].
  destruct i as [|i].
  - cbn in Hi. injection Hi as ->. reflexivity.
  - destruct (Hbefore 0%nat) as [st Hst]; [lia|]. cbn in Hst. injection Hst as ->.
    apply (IH scan' d1 i e Hi). intros j Hj. apply (Hbefore (S j)). lia.
Qed.

Lemma service_scans_counting_throws (n : nat) :
  forall (c : Z) (scan : LaserScan) (d : Laser) (i : nat) (e : Exception),
  scan_answers n scan d !! i = Some (Throw e) -> is_corrupted e = false ->
  (forall j r, (j < i)%nat -> scan_answers n scan d !! j = Some r -> tolerated r = true) ->
  fst (service_scans_counting n c scan d) = Throw e.
Proof.
  induction n as [|n IH]; intros c scan d i e Hi He Hbefore; [discriminate Hi|].
  cbn [scan_answers service_scans_counting] in *.
  destruct (laser_serviceScan_t scan 1000 d) as [[r scan'] d1].
  destruct i as [|i].
  - cbn in Hi. injection Hi as ->. now rewrite He.
  - assert (Hr : tolerated r = true) by (apply (Hbefore 0%nat r); [lia | reflexivity]).
    assert (Hrest : forall j r', (j < i)%nat -> scan_answers n scan' d1 !! j = Some r' ->
                      tolerated r' = true).
    { intros j r' Hj Hr'. apply (Hbefore (S j) r'); [lia | exact Hr']. }
    destruct r as [st|e']; [now apply (IH c scan' d1 i e)|].
    cbn in Hr. rewrite Hr. now apply (IH (int_incr c) scan' d1 i e).
Qed.

(** X17: an exception ends a streamed test without a status.  After a
    scan request that returned 0, [streamedDataTest] throws the first
    exception [serviceScan] throws, corrupted data included, and
    [streamedIntensityDataTest] throws the first exception that is not
    corrupted data. *)
Theorem streamed_tests_stop_at_exception (lc : LaserConfig) (scan : LaserScan)
    (status : DiagnosticStatus) (d d1 : Laser) (i : nat) (e : Exception) :
  laser_requestScans_n false (min_angle lc) (max_angle lc) 1 1 99 1000 d = (Ok 0, d1) ->
  scan_answers 99 scan d1 !! i = Some (Throw e) ->
  ((forall j, (j < i)%nat -> exists st, scan_answers 99 scan d1 !! j = Some (Ok st)) ->
   fst (streamedDataTest lc scan status d) = Throw e) /\
  (is_corrupted e = false ->
   (forall j r, (j < i)%nat -> scan_answers 99 scan d1 !! j = Some r -> tolerated r = true) ->
   fst (streamedIntensityDataTest lc scan status d) = Throw e).
Proof.
  intros Hreq Hi. split.
  - intros Hbefore. pose proof (service_scans_throws 99 scan d1 i e Hi Hbefore) as H.
    unfold streamedDataTest. rewrite Hreq. cbn [negb Z.eqb]. cbv iota.
    destruct (service_scans 99 scan d1) as [[u|e'] d2]; cbn in *; congruence.
  - intros He Hbefore.
    pose proof (service_scans_counting_throws 99 0 scan d1 i e Hi He Hbefore) as H.
    unfold streamedIntensityDataTest. rewrite Hreq. cbn [negb Z.eqb]. cbv iota.
    destruct (service_scans_counting 99 0 scan d1) as [[c|e'] d2]; cbn in *; congruence.
Qed.

(** X18: the table of tests.  The six tests are added under six different
    names, and whichever of them returns has set a level of 0, 1 or 2
    and has kept the key-values of the status it was given; level 1 comes
    from [streamedIntensityDataTest] only. *)
Theorem addOpenedTests_levels (lc : LaserConfig) (scan : LaserScan) :
  List.NoDup (map fst (addOpenedTests lc scan)) /\
  Forall (fun nt =>
            forall status d st' d',
              snd nt status d = (Ok st', d') ->
              values st' = values status /\
              (level st' = 0 \/ level st' = 2 \/
               (level st' = 1 /\ fst nt = "Streamed Intensity Data Test")))
    (addOpenedTests lc scan).
Proof.
  split.
  - cbn. repeat constructor; cbn; intros H;
      repeat (destruct H as [H|H]; [discriminate H|]); exact H.
  - unfold addOpenedTests.
    repeat (apply List.Forall_cons; [cbn [fst snd]; intros status d st' d'|]);
      [ | | | | | | apply List.Forall_nil].
    + unfold statusTest. destruct (laser_getStatus d) as [[stat|e] d1]; [|discriminate].
      destruct (negb (String.eqb stat "Sensor works well.")); intros H;
        injection H as <- _; cbn; auto.
    + unfold laserTest. destruct (laser_laserOn d) as [[u|e] d1]; [|discriminate].
      intros H; injection H as <- _; cbn; auto.
    + unfold polledDataTest.
      destruct (laser_pollScan scan (min_angle lc) (max_angle lc) 1 1000 d)
        as [[[res|e] scan'] d1]; [|discriminate].
      destruct (negb (res =? 0)%Z); intros H; injection H as <- _; cbn; auto.
    + unfold streamedDataTest.
      destruct (laser_requestScans_n false (min_angle lc) (max_angle lc) 1 1 99 1000 d)
        as [[res|e] d1]; [|discriminate].
      destruct (negb (res =? 0)%Z); [intros H; injection H as <- _; cbn; auto|].
      destruct (service_scans 99 scan d1) as [[u|e] d2]; [|discriminate].
      intros H; injection H as <- _; cbn; auto.
    + unfold streamedIntensityDataTest.
      destruct (laser_requestScans_n false (min_angle lc) (max_angle lc) 1 1 99 1000 d)
        as [[res|e] d1]; [|discriminate].
      destruct (negb (res =? 0)%Z); [intros H; injection H as <- _; cbn; auto|].
      destruct (service_scans_counting 99 0 scan d1) as [[c|e] d2]; [|discriminate].
      destruct (c =? 1)%Z; [intros H; injection H as <- _; cbn; auto|].
      destruct (c >? 1)%Z; intros H; injection H as <- _; cbn; auto.
    + unfold laserOffTest. destruct (laser_laserOff d) as [[u|e] d1]; [|discriminate].
      intros H; injection H as <- _; cbn; auto.
Qed.

End SelfTestFacts.

(** * The model at work: witnesses and counterexamples *)

(** A session on the healthy device: the states after [doOpen],
    [doStart], two frames, a [doStop] that joins the thread after three
    of its steps, and [doClose]. *)
Example healthy_session :
  let run := @exec Z nat nat (scripted healthy) (fresh cfg_plain) in
  let frames := [a_tick 0; a_tick 0; a_tick 0; a_tick 0]%nat in
  let stop := a_stop [(0, 10); (0, 10); (0, 10)]%nat in
  state_ (run [a_open]) = OPENED /\
  state_ (run [a_open; a_start]) = RUNNING /\
  callbacks (trace (run ([a_open; a_start] ++ frames))) = [5; 6]%nat /\
  state_ (run ([a_open; a_start] ++ frames ++ [stop])) = OPENED /\
  threads (run ([a_open; a_start] ++ frames ++ [stop])) = [Returned] /\
  lost_scan_thread_count_ (run ([a_open; a_start] ++ frames ++ [stop])) = 0 /\
  state_ (run ([a_open; a_start] ++ frames ++ [stop; a_close])) = CLOSED.
Proof. cbn zeta. by_vm. Qed.

(** Scenario D: the first [doOpen] with [calibrate_time] set calibrates
    once, and a [doClose] followed by a [doOpen] does not calibrate
    again. *)
Example calibrated_once_when_it_succeeds :
  let run := @exec Z nat nat (scripted healthy) (fresh cfg_calibrate) in
  count_events is_calcLatency (trace (run [a_open])) = 1%nat /\
  count_events is_calcLatency (trace (run [a_open; a_close; a_open])) = 1%nat.
Proof. cbn zeta. by_vm. Qed.

Lemma getID_masks_default_identity_witness :
  fst (@getID Z nat nat (scripted healthy) (fresh cfg_plain)) = Ok "H1234567".
Proof.
  apply (@getID_masks_default_identity Z nat nat (scripted healthy)
           (fresh cfg_plain) "H1234567" 1%nat).
  - reflexivity.
  - discriminate.
Defined.

Example getID_unnamed :
  fst (@getID Z nat nat (scripted unnamed) (fresh cfg_plain)) = Ok "unknown".
Proof. reflexivity. Qed.

Lemma doStart_rejected_witness :
  let s := @exec Z nat nat (scripted rejecting) (fresh cfg_plain) [a_open] in
  let s' := snd (@doStart Z nat nat (scripted rejecting) s) in
  state_ s = OPENED /\ state_ s' = OPENED /\
  corrupted_scan_count_ s' = 1 /\ threads s' = [] /\ scan_thread_ s' = None.
Proof.
  cbn zeta.
  destruct (@doStart_rejected Z nat nat (scripted rejecting)
              (@exec Z nat nat (scripted rejecting) (fresh cfg_plain) [a_open]) 1)
    as (Hc & Hs & _ & Hh & Ht & _).
  - reflexivity.
  - discriminate.
  - unfold INT_MAX. cbn. lia.
  - rewrite Hc, Hs, Hh, Ht. repeat split; reflexivity.
Defined.

(** C1 fails as stated in the row of stop: the request in flight throws
    while [doStop] waits, the thread closes the device, and [doStop]
    returns in [CLOSED]. *)
Lemma stop_from_running_may_end_closed :
  let s := @exec Z nat nat (scripted failing_scan) (fresh cfg_plain)
             [a_open; a_start; a_tick 0%nat] in
  let s' := snd (@doStop Z nat nat (scripted failing_scan) [(0, 100)%nat] s) in
  state_ s = RUNNING /\ state_ s' = CLOSED /\ state_ s' <> OPENED.
Proof. cbn zeta. vm_compute. repeat split; discriminate. Qed.

(** C2 fails as stated for the fatal fault: the request in flight throws,
    the thread returns, [stopScanning] has never been called, and the
    state is [CLOSED]. *)
Lemma fatal_fault_exit_skips_stopScanning :
  let s := @exec Z nat nat (scripted failing_scan) (fresh cfg_plain)
             [a_open; a_start; a_tick 0%nat] in
  let s' := @tick Z nat nat (scripted failing_scan) 0 s in
  threads s !! 0%nat = Some InServiceScan /\
  threads s' !! 0%nat = Some Returned /\
  count_events is_stopScanning (trace s') = 0%nat /\
  state_ s' = CLOSED.
Proof. cbn zeta. by_vm. Qed.

(** C7 fails as stated where it says that the state is Opened in every
    case when stop() returns: two frames are delivered, the third request throws 1500 ms
    into the wait; the thread is joined in time, nothing is counted as
    lost, and the state is [CLOSED]. *)
Lemma stop_returns_in_closed :
  let s := @exec Z nat nat (scripted dying) (fresh cfg_plain)
             [a_open; a_start; a_tick 0; a_tick 0; a_tick 0; a_tick 0; a_tick 0]%nat in
  let r := @doStop Z nat nat (scripted dying) [(0, 1500)%nat] s in
  state_ s = RUNNING /\ fst r = Ok tt /\ crashed (snd r) = false /\
  lost_scan_thread_count_ (snd r) = 0 /\
  state_ (snd r) = CLOSED /\ state_ (snd r) <> OPENED.
Proof. cbn zeta. vm_compute. repeat split; discriminate. Qed.

(** C5 fails as stated: the calibration throws at each [doOpen], and the
    second [doOpen] calls it again. *)
Lemma failed_calibration_runs_again :
  let s := @exec Z nat nat (scripted never_calibrates) (fresh cfg_calibrate)
             [a_open; a_close; a_open] in
  count_events is_calcLatency (trace s) = 2%nat /\ calibrated_ s = false.
Proof. cbn zeta. vm_compute. split; reflexivity. Qed.

(** C8 fails as stated: after a failed and then a successful [doOpen] the
    driver is [OPENED] and the failure text is still there. *)
Lemma connect_fail_survives_successful_open :
  let s := @exec Z nat nat (scripted late_open) (fresh cfg_plain) [a_open; a_open] in
  state_ s = OPENED /\ connect_fail_ s = "cannot open port" /\ connect_fail_ s <> "".
Proof. cbn zeta. vm_compute. repeat split; discriminate. Qed.

Lemma scanThread_exit_witness :
  let s := @exec Z nat nat (scripted healthy) (fresh cfg_plain)
             [a_open; a_start; a_stop []; a_tick 0%nat] in
  let s' := @tick Z nat nat (scripted healthy) 0 s in
  crashed s = false /\ threads s !! 0%nat = Some AfterLoop /\
  exists ok, trace s' = trace s ++ [Called c_stopScanning ok] /\
    if ok then threads s' !! 0%nat = Some Returned /\
               (state_ s <> CLOSED -> state_ s' = OPENED)
    else threads s' !! 0%nat = Some Aborted /\ state_ s' = state_ s.
Proof.
  cbn zeta. split; [reflexivity|]. split; [reflexivity|].
  pose proof (@scanThread_exit Z nat nat (scripted healthy) 0%nat
                (@exec Z nat nat (scripted healthy) (fresh cfg_plain)
                   [a_open; a_start; a_stop []; a_tick 0%nat])
                AfterLoop eq_refl eq_refl) as H.
  cbn zeta in H. destruct H as (_ & _ & H & _). exact (H eq_refl).
Defined.

Lemma fatal_fault_after_ten_frames_witness :
  let s3 := @ticks Z nat nat (scripted ten_frames) (repeat 0%nat 22)
              (@started Z nat nat (scripted ten_frames) cfg_plain 0%nat 0%nat) in
  callbacks (trace s3) = [5; 6; 7; 8; 9; 10; 11; 12; 13; 14]%nat /\
  state_ s3 = CLOSED /\ threads s3 = [Returned].
Proof.
  cbn zeta.
  pose proof (@fatal_fault_after_ten_frames Z nat nat (scripted ten_frames)
                cfg_plain 0%nat 0%nat [5; 6; 7; 8; 9; 10; 11; 12; 13; 14]%nat
                (fault "device unplugged") 15%nat) as H.
  cbn zeta in H.
  destruct H as (H1 & H2 & H3 & _).
  - reflexivity.
  - reflexivity.
  - reflexivity.
  - reflexivity.
  - vm_compute. repeat split.
  - repeat split; assumption.
Defined.

Lemma corrupted_frame_skipped_witness :
  let s := @exec Z nat nat (scripted glitch) (fresh cfg_plain)
             [a_open; a_start; a_tick 0%nat] in
  let s' := @tick Z nat nat (scripted glitch) 0 s in
  threads s !! 0%nat = Some InServiceScan /\
  state_ s' = RUNNING /\ corrupted_scan_count_ s' = 0 /\
  callbacks (trace s') = [] /\
  callbacks (trace (@ticks Z nat nat (scripted glitch) [0; 0]%nat s')) = [6%nat].
Proof.
  cbn zeta. split; [reflexivity|].
  pose proof (@corrupted_frame_skipped Z nat nat (scripted glitch) 0%nat
                (@exec Z nat nat (scripted glitch) (fresh cfg_plain)
                   [a_open; a_start; a_tick 0%nat])
                (corrupted "bad checksum") 5%nat 6%nat
                eq_refl eq_refl eq_refl eq_refl) as H.
  cbn zeta in H. destruct H as (H1 & H2 & _ & H4 & _ & _ & H7).
  split; [rewrite H1; reflexivity|]. split; [rewrite H2; reflexivity|].
  split; [rewrite H4; reflexivity|].
  destruct (H7 eq_refl 6%nat 7%nat eq_refl) as (H8 & _). rewrite H8. reflexivity.
Defined.

(** Scenario C: the request in flight does not return while [doStop]
    waits. *)
Lemma doStop_contract_witness :
  let s := @exec Z nat nat (scripted healthy) (fresh cfg_plain)
             [a_open; a_start; a_tick 0%nat] in
  let s' := snd (@doStop Z nat nat (scripted healthy) [] s) in
  state_ s = RUNNING /\ scan_thread_ s = Some 0%nat /\
  lost_scan_thread_count_ s' = 1 /\ state_ s' = OPENED /\ scan_thread_ s' = None.
Proof.
  cbn zeta. split; [by_vm|]. split; [by_vm|].
  pose proof (@doStop_contract Z nat nat (scripted healthy) []
                (@exec Z nat nat (scripted healthy) (fresh cfg_plain)
                   [a_open; a_start; a_tick 0%nat])) as H.
  destruct H as (_ & H). specialize (H 0%nat). feed H. feed H. cbn zeta in H.
  destruct H as (j & w & E & _ & _ & _ & _ & H).
  vm_compute in E. injection E as <- _.
  feed H. destruct H as (Hh & _ & _ & Hl & _ & Hs).
  feed Hl. feed Hl. feed Hs.
  split; [rewrite Hl; by_vm|].
  split; [exact Hs | exact Hh].
Defined.

(** C9 on a driver whose [doOpen] has failed: the driver is [CLOSED] and
    has recorded the text of the exception; the summary is an error whose
    message is the bare "Not connected. " and does not contain the
    recorded text. *)
Theorem connectionStatus_omits_recorded_failure :
  let d := @exec Z nat nat (scripted late_open) (fresh cfg_plain) [a_open] in
  let r := connectionStatus (HokuyoNode_new d) blank_status in
  state_ d = CLOSED /\ connect_fail_ d = "cannot open port" /\
  level r = 2 /\ message r = "Not connected. " /\
  contains (connect_fail_ d) (message r) = false.
Proof. cbn zeta. vm_compute. repeat split. Qed.

(** * Further witnesses *)


Lemma model_04LX_never_asks_intensity_witness :
  count_events asks_intensity
    (trace (@exec Z nat nat (scripted healthy) (fresh cfg_04LX)
              [a_open; a_start; a_tick 0%nat; a_config cfg_04LX; a_stop []; a_start])) = 0%nat.
Proof.
  apply (@model_04LX_never_asks_intensity Z nat nat (scripted healthy)).
  - reflexivity.
  - by_forall.
Defined.

Lemma config_update_commutes_witness :
  let s := @started Z nat nat (scripted healthy) cfg_plain 0%nat 0%nat in
  let acts := [a_tick 0%nat; a_tick 0%nat; a_stop [(0, 5)%nat]; a_close] in
  @exec Z nat nat (scripted healthy) (snd (config_update cfg_calibrate s)) acts =
    snd (config_update cfg_calibrate (@exec Z nat nat (scripted healthy) s acts)) /\
  config_ (@exec Z nat nat (scripted healthy) (snd (config_update cfg_calibrate s)) acts) =
    cfg_calibrate.
Proof.
  cbn zeta. apply (@config_update_commutes Z nat nat (scripted healthy)). by_forall.
Defined.

Lemma scanThread_winds_down_witness :
  let s := @exec Z nat nat (scripted healthy) (fresh cfg_plain)
             [a_open; a_start; a_tick 0%nat; a_close] in
  let acts := [a_tick 0%nat; a_open; a_tick 0%nat; a_config cfg_calibrate;
               a_stop []; a_tick 0%nat] in
  let s' := @exec Z nat nat (scripted healthy) s acts in
  state_ s = CLOSED /\ threads s !! 0%nat = Some InServiceScan /\
  state_ s' <> RUNNING /\
  (crashed s' = true \/ thread_terminated 0 s' = true) /\
  (count_events is_serviceScan (trace s') <= 1)%nat.
Proof.
  cbn zeta. split; [by_vm|]. split; [by_vm|].
  pose proof (@scanThread_winds_down Z nat nat (scripted healthy) 0%nat
                [a_tick 0%nat; a_open; a_tick 0%nat; a_config cfg_calibrate;
                 a_stop []; a_tick 0%nat]
                (@exec Z nat nat (scripted healthy) (fresh cfg_plain)
                   [a_open; a_start; a_tick 0%nat; a_close]) InServiceScan) as H.
  feed H. feed H.
  feed_with H ltac:(repeat (apply List.Forall_cons; [discriminate|]); apply List.Forall_nil).
  cbn zeta in H. destruct H as (Hst & Hend & Hcnt).
  split; [exact Hst|]. split; [apply Hend; vm_compute; lia|].
  etransitivity; [exact Hcnt|]. vm_compute. lia.
Defined.


Lemma frame_in_flight_is_delivered_after_stop_witness :
  let s := @exec Z nat nat (scripted healthy) (fresh cfg_plain)
             [a_open; a_start; a_tick 0%nat] in
  let s1 := snd (@doStop Z nat nat (scripted healthy) [] s) in
  state_ s1 = OPENED /\
  callbacks (trace (@tick Z nat nat (scripted healthy) 0 s1)) = [5%nat].
Proof.
  cbn zeta.
  pose proof (@frame_in_flight_is_delivered_after_stop Z nat nat (scripted healthy) 0%nat
                (@exec Z nat nat (scripted healthy) (fresh cfg_plain)
                   [a_open; a_start; a_tick 0%nat]) 5%nat 6%nat) as H.
  feed H. feed H. feed H. feed H. feed H. cbn zeta in H.
  destruct H as (H1 & _ & _ & H4 & _).
  split; [exact H1|]. rewrite H4. by_vm.
Defined.

(** The driver is stopped without the thread, closed, and then the
    request in flight returns: the thread finds the driver [CLOSED] and
    leaves it [OPENED]. *)
Lemma late_thread_reopens_state_witness :
  let s := @exec Z nat nat (scripted healthy) (fresh cfg_plain)
             [a_open; a_start; a_tick 0%nat; a_stop []; a_close; a_tick 0%nat] in
  let s' := @ticks Z nat nat (scripted healthy) [0; 0]%nat s in
  state_ s = CLOSED /\ state_ s' = OPENED /\ threads s' !! 0%nat = Some Returned.
Proof.
  cbn zeta. split; [by_vm|].
  pose proof (@late_thread_reopens_state Z nat nat (scripted healthy) 0%nat
                (@exec Z nat nat (scripted healthy) (fresh cfg_plain)
                   [a_open; a_start; a_tick 0%nat; a_stop []; a_close; a_tick 0%nat])
                8%nat) as H.
  feed H. feed H. feed H. feed H. cbn zeta in H.
  destruct H as (H1 & H2 & _). split; [exact H1 | exact H2].
Defined.

Lemma streamedIntensityDataTest_counts_witness :
  exists d2,
    streamedIntensityDataTest (tdev := scripted_tests 0 two_glitches)
      limits 0%nat blank_status 0%nat =
      (Ok (mkStatus 2 "2 corrupted messages." []), d2).
Proof.
  pose proof (@streamedIntensityDataTest_counts Z nat nat
                (scripted_tests 0 two_glitches) limits 0%nat blank_status 0%nat 1%nat) as H.
  feed H.
  assert (Hall : Forall (fun r => tolerated r = true)
                   (scan_answers (tdev := scripted_tests 0 two_glitches) 99 0%nat 1%nat))
    by by_forall.
  specialize (H Hall). cbn zeta in H.
  destruct H as (st' & d2 & E & Hv & _ & _ & H2).
  assert (Hk : (2 <= length (List.filter is_corrupted_answer
                   (scan_answers (tdev := scripted_tests 0 two_glitches) 99 0%nat 1%nat)))%nat)
    by (vm_compute; repeat constructor).
  destruct (H2 Hk) as (Hl & Hm).
  exists d2. rewrite E. f_equal. destruct st' as [l m v]. cbn in *.
  rewrite Hv, Hl, Hm. by_vm.
Defined.

Lemma streamedDataTest_ignores_statuses_witness :
  exists d2,
    streamedDataTest (tdev := scripted_tests 0 all_status_7)
      limits 0%nat blank_status 0%nat =
      (Ok (mkStatus 0 "Streamed data from Hokuyo successfully." []), d2).
Proof.
  apply (@streamedDataTest_ignores_statuses Z nat nat
           (scripted_tests 0 all_status_7) limits 0%nat blank_status 0%nat 1%nat).
  - reflexivity.
  - by_forall.
Defined.

Lemma streamed_tests_stop_at_exception_witness :
  fst (streamedDataTest (tdev := scripted_tests 0 glitch_at_4)
         limits 0%nat blank_status 0%nat) = Throw (corrupted "bad checksum").
Proof.
  pose proof (@streamed_tests_stop_at_exception Z nat nat
                (scripted_tests 0 glitch_at_4) limits 0%nat blank_status 0%nat 1%nat
                3%nat (corrupted "bad checksum")) as H.
  feed H. feed H. destruct H as (H & _). apply H.
  intros j Hj. destruct j as [|[|[|j]]]; [exists 0; reflexivity ..|lia].
Defined.
